(** * Response shaping of the Quiver MCP server (response-utils.ts)

    A shallow embedding of [formatResponse], [selectFields],
    [applyPagination], [formatOutput], [formatAsJSON], [createSummary],
    [formatAsTable], [formatAsCSV] and [selectTickerDataSections], over a
    model of the JavaScript values they manipulate.

    Modelling choices:
    - a JS value is [value]; a plain object is the association list of its
      own enumerable properties, in the order [Object.keys] reports them;
    - JS numbers are modelled by integers [Z] (NaN, infinities, -0 and
      fractions are outside the model);
    - JS strings are modelled by [string] (one [ascii] per code unit);
    - a thrown exception is the [Throw] case of [result];
    - properties inherited from the built-in prototypes are modelled by
      name: reading one yields a built-in function [VFun] (or, for
      [__proto__], the prototype object [VProto]). *)

From Stdlib Require Import ZArith String Ascii List Bool Lia.
From Stdlib Require Import Decimal DecimalN DecimalPos.
Import ListNotations.
Open Scope string_scope.
Set Warnings "-register-all".

(** ** JavaScript values *)

Inductive proto_kind : Type :=
| PObject | PArray | PString | PNumber | PBoolean | PFunction.

Inductive value : Type :=
| VUndef
| VNull
| VBool (b : bool)
| VNum (n : Z)
| VStr (s : string)
| VArr (l : list value)
| VObj (o : list (string * value))
| VFun (home : proto_kind) (name : string)
    (* the built-in function found as property [name] of prototype [home]
       ([constructor]: the constructor itself) *)
| VProto (k : proto_kind).      (* a built-in prototype object *)

(** Outcomes: a value, a thrown exception, or [Beyond] when the
    computation calls a built-in function that has been stored as an own
    property of an object (behaviour this model does not describe). *)
Inductive result (A : Type) : Type :=
| Ok (a : A)
| Throw (msg : string)
| Beyond.
Arguments Ok {A} a.
Arguments Throw {A} msg.
Arguments Beyond {A}.

Definition bind {A B} (r : result A) (f : A -> result B) : result B :=
  match r with Ok a => f a | Throw m => Throw m | Beyond => Beyond end.

Notation "x <- r ;; k" := (bind r (fun x => k))
  (at level 61, r at next level, right associativity).

Fixpoint mapM {A B} (f : A -> result B) (l : list A) : result (list B) :=
  match l with
  | [] => Ok []
  | x :: r => y <- f x ;; ys <- mapM f r ;; Ok (y :: ys)
  end.

(** Characters that cannot be written as literals here. *)
Definition dq : ascii := ascii_of_nat 34.
Definition nl : ascii := ascii_of_nat 10.

Definition str1 (c : ascii) : string := String c EmptyString.

(** [xs.join(sep)] on strings. *)
Fixpoint join (sep : string) (l : list string) : string :=
  match l with
  | [] => EmptyString
  | [x] => x
  | x :: r => x ++ sep ++ join sep r
  end.

(** ** Decimal rendering of numbers ([Number.prototype.toString]) *)

Fixpoint uint_digits (d : uint) : string :=
  match d with
  | Nil => EmptyString
  | D0 d => String "0" (uint_digits d)
  | D1 d => String "1" (uint_digits d)
  | D2 d => String "2" (uint_digits d)
  | D3 d => String "3" (uint_digits d)
  | D4 d => String "4" (uint_digits d)
  | D5 d => String "5" (uint_digits d)
  | D6 d => String "6" (uint_digits d)
  | D7 d => String "7" (uint_digits d)
  | D8 d => String "8" (uint_digits d)
  | D9 d => String "9" (uint_digits d)
  end.

Definition Z_to_dec (z : Z) : string :=
  match z with
  | Z0 => "0"
  | Zpos p => uint_digits (Pos.to_uint p)
  | Zneg p => String "-" (uint_digits (Pos.to_uint p))
  end.

(** One decimal digit, as a constructor of [uint]. *)
Definition digit_of (c : ascii) : option (uint -> uint) :=
  match c with
  | "0"%char => Some D0 | "1"%char => Some D1 | "2"%char => Some D2
  | "3"%char => Some D3 | "4"%char => Some D4 | "5"%char => Some D5
  | "6"%char => Some D6 | "7"%char => Some D7 | "8"%char => Some D8
  | "9"%char => Some D9 | _ => None
  end.

Fixpoint digits_uint (s : string) : option uint :=
  match s with
  | EmptyString => Some Nil
  | String c r =>
      match digit_of c, digits_uint r with
      | Some d, Some u => Some (d u)
      | _, _ => None
      end
  end.

(** Array-index property keys: canonical decimal strings of integers in
    [0, 2^32 - 2]. *)
Definition index_val (s : string) : N :=
  match digits_uint s with Some u => N.of_uint u | None => 0%N end.

Definition is_index_key (s : string) : bool :=
  match s with
  | EmptyString => false
  | _ =>
      match digits_uint s with
      | Some u =>
          String.eqb (Z_to_dec (Z.of_N (N.of_uint u))) s
          && (N.of_uint u <? 4294967295)%N
      | None => false
      end
  end.

(** ** Own-property order of ordinary objects

    Defining a new property puts array-index keys in ascending order
    before all other keys, which keep their insertion order; redefining
    an existing property keeps its position. *)

Fixpoint assoc (o : list (string * value)) (k : string) : option value :=
  match o with
  | [] => None
  | (k', v) :: r => if String.eqb k' k then Some v else assoc r k
  end.

Fixpoint update (o : list (string * value)) (k : string) (v : value)
  : list (string * value) :=
  match o with
  | [] => []
  | (k', v') :: r =>
      if String.eqb k' k then (k', v) :: r else (k', v') :: update r k v
  end.

Fixpoint insert_index (o : list (string * value)) (k : string) (v : value)
  : list (string * value) :=
  match o with
  | [] => [(k, v)]
  | (k', v') :: r =>
      if is_index_key k' && (index_val k' <? index_val k)%N
      then (k', v') :: insert_index r k v
      else (k, v) :: o
  end.

(** [CreateDataProperty(o, k, v)]. *)
Definition obj_define (o : list (string * value)) (k : string) (v : value)
  : list (string * value) :=
  match assoc o k with
  | Some _ => update o k v
  | None => if is_index_key k then insert_index o k v else o ++ [(k, v)]
  end.

(** [o[k] = v] on an ordinary object whose prototype is
    [Object.prototype]: the key [__proto__] hits the inherited accessor,
    which only changes the prototype and creates no own property. *)
Definition obj_set (o : list (string * value)) (k : string) (v : value)
  : list (string * value) :=
  if String.eqb k "__proto__" then o else obj_define o k v.

(** ** Built-in prototypes

    Names of the string-keyed properties of the built-in prototypes
    (Node.js 20); [length] is left out where every instance has an own
    [length]. *)

Definition object_proto_names : list string :=
  ["constructor"; "__defineGetter__"; "__defineSetter__"; "hasOwnProperty";
   "__lookupGetter__"; "__lookupSetter__"; "isPrototypeOf";
   "propertyIsEnumerable"; "toString"; "valueOf"; "__proto__";
   "toLocaleString"].

Definition array_proto_names : list string :=
  ["at"; "concat"; "copyWithin"; "fill"; "find"; "findIndex"; "findLast";
   "findLastIndex"; "lastIndexOf"; "pop"; "push"; "reverse"; "shift";
   "unshift"; "slice"; "sort"; "splice"; "includes"; "indexOf"; "join";
   "keys"; "entries"; "values"; "forEach"; "filter"; "flat"; "flatMap";
   "map"; "every"; "some"; "reduce"; "reduceRight"; "toLocaleString";
   "toString"; "toReversed"; "toSorted"; "toSpliced"; "with"].

Definition string_proto_names : list string :=
  ["anchor"; "at"; "big"; "blink"; "bold"; "charAt"; "charCodeAt";
   "codePointAt"; "concat"; "endsWith"; "fontcolor"; "fontsize"; "fixed";
   "includes"; "indexOf"; "isWellFormed"; "italics"; "lastIndexOf"; "link";
   "localeCompare"; "match"; "matchAll"; "normalize"; "padEnd"; "padStart";
   "repeat"; "replace"; "replaceAll"; "search"; "slice"; "small"; "split";
   "strike"; "sub"; "substr"; "substring"; "sup"; "startsWith"; "toString";
   "toWellFormed"; "trim"; "trimStart"; "trimLeft"; "trimEnd"; "trimRight";
   "toLocaleLowerCase"; "toLocaleUpperCase"; "toLowerCase"; "toUpperCase";
   "valueOf"].

Definition number_proto_names : list string :=
  ["toExponential"; "toFixed"; "toPrecision"; "toString"; "valueOf";
   "toLocaleString"].

Definition boolean_proto_names : list string := ["toString"; "valueOf"].

Definition function_proto_names : list string :=
  ["length"; "name"; "arguments"; "caller"; "apply"; "bind"; "call";
   "toString"].

Definition proto_names (p : proto_kind) : list string :=
  match p with
  | PObject => []
  | PArray => array_proto_names
  | PString => string_proto_names
  | PNumber => number_proto_names
  | PBoolean => boolean_proto_names
  | PFunction => function_proto_names
  end.

Definition ctor_name (p : proto_kind) : string :=
  match p with
  | PObject => "Object" | PArray => "Array" | PString => "String"
  | PNumber => "Number" | PBoolean => "Boolean" | PFunction => "Function"
  end.

Definition mem (k : string) (l : list string) : bool :=
  existsb (String.eqb k) l.

(** Is [k] found on the prototype chain starting at prototype [p]? *)
Definition inherited_has (p : proto_kind) (k : string) : bool :=
  mem k (proto_names p) || mem k object_proto_names.

(** Reading an inherited property [k] through prototype [p]. *)
Definition inherited_get (p : proto_kind) (k : string) : value :=
  if String.eqb k "__proto__" then VProto p
  else if String.eqb k "constructor" then VFun p k
  else if mem k (proto_names p) then VFun p k
  else if mem k object_proto_names then VFun PObject k
  else VUndef.

(** ** Abstract operations *)

(** [ToBoolean]. *)
Definition truthy (v : value) : bool :=
  match v with
  | VUndef | VNull => false
  | VBool b => b
  | VNum n => negb (Z.eqb n 0)
  | VStr s => negb (String.eqb s EmptyString)
  | _ => true
  end.

(** [typeof v === 'object' && v !== null]. *)
Definition is_object (v : value) : bool :=
  match v with
  | VArr _ | VObj _ | VProto _ => true
  | _ => false
  end.

Definition index_keys (n : nat) : list string :=
  map (fun i => Z_to_dec (Z.of_nat i)) (seq 0 n).

(** [Object.keys(v)] (never called on [null] or [undefined] below). *)
Definition object_keys (v : value) : list string :=
  match v with
  | VObj o => map fst o
  | VArr l => index_keys (length l)
  | VStr s => index_keys (String.length s)
  | _ => []
  end.

(** [v[k]]: reading a property; [null] and [undefined] throw.  Own
    properties of built-in functions and prototypes are not modelled. *)
Definition js_get (v : value) (k : string) : result value :=
  match v with
  | VUndef => Throw "TypeError: Cannot read properties of undefined"
  | VNull => Throw "TypeError: Cannot read properties of null"
  | VObj o =>
      match assoc o k with
      | Some x => Ok x
      | None => Ok (inherited_get PObject k)
      end
  | VArr l =>
      if String.eqb k "length" then Ok (VNum (Z.of_nat (length l)))
      else if is_index_key k && (index_val k <? N.of_nat (length l))%N
      then Ok (nth (N.to_nat (index_val k)) l VUndef)
      else Ok (inherited_get PArray k)
  | VStr s =>
      if String.eqb k "length" then Ok (VNum (Z.of_nat (String.length s)))
      else if is_index_key k && (index_val k <? N.of_nat (String.length s))%N
      then Ok (VStr (String.substring (N.to_nat (index_val k)) 1 s))
      else Ok (inherited_get PString k)
  | VNum _ => Ok (inherited_get PNumber k)
  | VBool _ => Ok (inherited_get PBoolean k)
  | VFun _ _ => Ok (inherited_get PFunction k)
  | VProto _ => Ok (inherited_get PObject k)
  end.

(** [k in v] for an object [v]. *)
Definition js_in (k : string) (v : value) : bool :=
  match v with
  | VObj o =>
      match assoc o k with Some _ => true | None => inherited_has PObject k end
  | VArr l =>
      String.eqb k "length"
      || (is_index_key k && (index_val k <? N.of_nat (length l))%N)
      || inherited_has PArray k
  | VFun _ _ => inherited_has PFunction k
  | _ => inherited_has PObject k
  end.

(** ** [ToString] *)

Definition fun_source (home : proto_kind) (name : string) : string :=
  "function " ++ (if String.eqb name "constructor" then ctor_name home
                  else name) ++ "() { [native code] }".

Definition callable (v : value) : bool :=
  match v with VFun _ _ | VProto PFunction => true | _ => false end.

(** [OrdinaryToPrimitive(o, string)] for an ordinary object: its
    [toString] and then its [valueOf]; the inherited ones are
    [Object.prototype.toString] and [Object.prototype.valueOf] (which
    returns the object itself, not a primitive). *)
Definition object_to_string (o : list (string * value)) : result string :=
  match assoc o "toString" with
  | None => Ok "[object Object]"
  | Some f =>
      if callable f then Beyond
      else match assoc o "valueOf" with
           | Some g => if callable g then Beyond
                       else Throw "TypeError: Cannot convert object to primitive value"
           | None => Throw "TypeError: Cannot convert object to primitive value"
           end
  end.

(** [String(v)]; arrays go through [Array.prototype.join], which renders
    [null] and [undefined] elements as the empty string. *)
Fixpoint to_js_string (v : value) : result string :=
  match v with
  | VUndef => Ok "undefined"
  | VNull => Ok "null"
  | VBool true => Ok "true"
  | VBool false => Ok "false"
  | VNum n => Ok (Z_to_dec n)
  | VStr s => Ok s
  | VArr l =>
      parts <- mapM (fun x => match x with
                              | VUndef | VNull => Ok EmptyString
                              | _ => to_js_string x
                              end) l ;;
      Ok (join "," parts)
  | VObj o => object_to_string o
  | VFun h n => Ok (fun_source h n)
  | VProto PObject => Ok "[object Object]"
  | VProto PArray => Ok EmptyString
  | VProto PString => Ok EmptyString
  | VProto PNumber => Ok "0"
  | VProto PBoolean => Ok "false"
  | VProto PFunction => Ok "function () { [native code] }"
  end.

(** [Array.prototype.join] with a separator. *)
Definition array_join (sep : string) (l : list value) : result string :=
  parts <- mapM (fun x => match x with
                          | VUndef | VNull => Ok EmptyString
                          | _ => to_js_string x
                          end) l ;;
  Ok (join sep parts).

(** ** [JSON.stringify] *)

Definition hex_digit (n : nat) : ascii :=
  ascii_of_nat (if Nat.ltb n 10 then 48 + n else 87 + n).

(** [QuoteJSONString], one code unit. *)
Definition quote_char (c : ascii) : string :=
  let n := nat_of_ascii c in
  if Nat.eqb n 34 then String "\" (str1 dq)
  else if Nat.eqb n 92 then "\\"
  else if Nat.eqb n 8 then "\b"
  else if Nat.eqb n 9 then "\t"
  else if Nat.eqb n 10 then "\n"
  else if Nat.eqb n 12 then "\f"
  else if Nat.eqb n 13 then "\r"
  else if Nat.ltb n 32 then
    "\u00" ++ String (hex_digit (n / 16)) (str1 (hex_digit (n mod 16)))
  else str1 c.

Fixpoint quote_chars (s : string) : string :=
  match s with
  | EmptyString => EmptyString
  | String c r => quote_char c ++ quote_chars r
  end.

Definition quote (s : string) : string :=
  String dq (quote_chars s ++ str1 dq).

(** [SerializeJSONProperty]: [None] is the JS [undefined] result. *)
Fixpoint json_stringify (v : value) : result (option string) :=
  match v with
  | VUndef | VFun _ _ => Ok None
  | VNull => Ok (Some "null")
  | VBool true => Ok (Some "true")
  | VBool false => Ok (Some "false")
  | VNum n => Ok (Some (Z_to_dec n))
  | VStr s => Ok (Some (quote s))
  | VArr l =>
      parts <- mapM (fun x => r <- json_stringify x ;;
                              match r with
                              | Some p => Ok p
                              | None => Ok "null"
                              end) l ;;
      Ok (Some ("[" ++ join "," parts ++ "]"))
  | VObj o =>
      if match assoc o "toJSON" with Some f => callable f | None => false end
      then Beyond
      else
        parts <- mapM (fun kv => r <- json_stringify (snd kv) ;;
                                 match r with
                                 | Some p => Ok [quote (fst kv) ++ ":" ++ p]
                                 | None => Ok []
                                 end) o ;;
        Ok (Some ("{" ++ join "," (concat parts) ++ "}"))
  | VProto PObject => Ok (Some "{}")
  | VProto PArray => Ok (Some "[]")
  | VProto PString => Ok (Some (quote EmptyString))
  | VProto PNumber => Ok (Some "0")
  | VProto PBoolean => Ok (Some "false")
  | VProto PFunction => Ok None
  end.

(** [JSON.stringify(v)] with [undefined] as [VUndef]. *)
Definition JSON_stringify (v : value) : result value :=
  r <- json_stringify v ;;
  Ok (match r with Some s => VStr s | None => VUndef end).

(** ** Types of response-utils.ts and types.ts *)

Inductive ResponseMode : Type := compact | summary | detailed.
Inductive OutputFormat : Type := json | table | csv.

Module QuiverAPIResponse.
Record t : Type := mk {
    data : value;               (* [VUndef] when absent *)
    error : option string;
    status : Z
  }.
End QuiverAPIResponse.

Module ResponseOptions.
Record t : Type := mk {
    mode : option ResponseMode;
    format : option OutputFormat;
    fields : option (list string);
    explicitFields : option bool;
    page : option Z;
    page_size : option Z;
    limit : option Z
  }.
End ResponseOptions.

Module PaginationInfo.
Record t : Type := mk {
    current_page : Z;
    page_size : Z;
    total_items : Z;
    total_pages : Z;
    has_next : bool;
    has_previous : bool
  }.
End PaginationInfo.

Module SummaryInfo.
Record t : Type := mk {
    total_items : Z;
    fields_included : list string;
    mode : ResponseMode;
    format : OutputFormat
  }.
End SummaryInfo.

Module OptimizedResponse.
Record t : Type := mk {
    data : value;
    pagination : option PaginationInfo.t;
    summary : option SummaryInfo.t
  }.
End OptimizedResponse.

(** Truthiness of optional fields: an absent field is [undefined]. *)
Definition num_truthy (o : option Z) : bool :=
  match o with Some n => negb (Z.eqb n 0) | None => false end.

Definition str_truthy (o : option string) : bool :=
  match o with Some s => negb (String.eqb s EmptyString) | None => false end.

(** [x || d] on an optional number. *)
Definition num_or (o : option Z) (d : Z) : Z :=
  match o with Some n => if Z.eqb n 0 then d else n | None => d end.

Definition opt_or {A} (o : option A) (d : A) : A :=
  match o with Some x => x | None => d end.

(** [Array.prototype.slice(start, end)] with integer arguments. *)
Definition js_slice {A} (l : list A) (start end_ : Z) : list A :=
  let len := Z.of_nat (length l) in
  let rs := if (start <? 0)%Z then Z.max (len + start) 0 else Z.min start len in
  let re := if (end_ <? 0)%Z then Z.max (len + end_) 0 else Z.min end_ len in
  firstn (Z.to_nat (re - rs)) (skipn (Z.to_nat rs) l).

(** [Math.ceil(a / b)] for integers, [b] non-zero. *)
Definition ceil_div (a b : Z) : Z := (- ((- a) / b))%Z.

Fixpoint foldM {A B} (f : A -> B -> result A) (acc : A) (l : list B)
  : result A :=
  match l with
  | [] => Ok acc
  | x :: r => acc' <- f acc x ;; foldM f acc' r
  end.

(** ** The functions of response-utils.ts *)

(** [selectFields(data, fields)] *)
Definition selectFields (data : list value) (fields : list string)
  : result (list value) :=
  match fields with
  | [] => Ok data
  | _ =>
      mapM (fun item =>
              if negb (is_object item) then Ok item
              else
                p <- foldM (fun '(selected, hasAnyField) field =>
                              if js_in field item
                              then x <- js_get item field ;;
                                   Ok (obj_set selected field x, true)
                              else Ok (selected, hasAnyField))
                           ([], false) fields ;;
                let '(selected, hasAnyField) := p in
                Ok (if hasAnyField then VObj selected else item))
           data
  end.

(** The limiting step of [applyPagination] (lines 139-142). *)
Definition limit_stage (data : list value) (limit : option Z) : list value :=
  match limit with
  | Some n => if (negb (Z.eqb n 0)) && (n >? 0)%Z then js_slice data 0 n else data
  | None => data
  end.

(** [applyPagination(data, options)] *)
Definition applyPagination (data : value) (options : ResponseOptions.t)
  : value * PaginationInfo.t :=
  match data with
  | VArr l =>
      let limit := ResponseOptions.limit options in
      let page := num_or (ResponseOptions.page options) 1 in
      let page_size := num_or (ResponseOptions.page_size options) 50 in
      let limitedData := limit_stage l limit in
      let total_items := Z.of_nat (length limitedData) in
      let total_pages := ceil_div total_items page_size in
      let start_index := ((page - 1) * page_size)%Z in
      let end_index := (start_index + page_size)%Z in
      let paginatedData := js_slice limitedData start_index end_index in
      (VArr paginatedData,
       PaginationInfo.mk page page_size total_items total_pages
         (page <? total_pages)%Z (page >? 1)%Z)
  | _ => (data, PaginationInfo.mk 1 1 1 1 false false)
  end.

(** [createSummary(data)] *)
Definition createSummary (data : value) : value :=
  match data with
  | VArr [] =>
      VObj [("type", VStr "array"); ("count", VNum 0);
            ("sample", VArr []); ("fields", VArr [])]
  | VArr l =>
      let fields :=
        match find (fun item => truthy item && is_object item) l with
        | Some o => map VStr (object_keys o)
        | None => []
        end in
      VObj [("type", VStr "array"); ("count", VNum (Z.of_nat (length l)));
            ("sample", VArr (js_slice l 0 (Z.min 5 (Z.of_nat (length l)))));
            ("fields", VArr fields)]
  | _ => VObj [("type", VStr "object"); ("preview", data)]
  end.

(** [formatAsJSON(data, mode)] *)
Definition formatAsJSON (data : value) (mode : ResponseMode) : result value :=
  match mode with
  | compact => JSON_stringify data
  | summary => Ok (createSummary data)
  | detailed => Ok data
  end.

Definition no_data : string := "No data available".

Definition lines (l : list string) : string := join (str1 nl) l.

(** [formatAsTable(data)] *)
Definition formatAsTable (data : value) : result string :=
  match data with
  | VArr ((firstItem :: _) as l) =>
      if negb (is_object firstItem) then
        rows <- mapM (fun item => t <- to_js_string item ;;
                                  Ok ("| " ++ t ++ " |")) l ;;
        Ok (lines rows)
      else
        let headers := object_keys firstItem in
        let headerRow := "| " ++ join " | " headers ++ " |" in
        let separatorRow := "| " ++ join " | " (map (fun _ => "---") headers)
                            ++ " |" in
        dataRows <- mapM (fun item =>
                     cells <- mapM (fun header =>
                                x <- js_get item header ;;
                                to_js_string (if truthy x then x
                                              else VStr EmptyString)) headers ;;
                     Ok ("| " ++ join " | " cells ++ " |")) l ;;
        Ok (lines (headerRow :: separatorRow :: dataRows))
  | _ => Ok no_data
  end.

Definition has_char (c : ascii) (s : string) : bool :=
  existsb (Ascii.eqb c) (list_ascii_of_string s).

(** [s.replace(/dq/g, dq dq)]: every double quote doubled. *)
Fixpoint double_quotes (s : string) : string :=
  match s with
  | EmptyString => EmptyString
  | String c r =>
      if Ascii.eqb c dq then String dq (String dq (double_quotes r))
      else String c (double_quotes r)
  end.

(** [formatAsCSV(data)] *)
Definition formatAsCSV (data : value) : result string :=
  match data with
  | VArr ((firstItem :: _) as l) =>
      if negb (is_object firstItem) then array_join "," l
      else
        let headers := object_keys firstItem in
        let headerRow := join "," headers in
        dataRows <- mapM (fun item =>
                     cells <- mapM (fun header =>
                                x <- js_get item header ;;
                                let value := if truthy x then x
                                             else VStr EmptyString in
                                sv <- to_js_string value ;;
                                Ok (if has_char "," sv || has_char dq sv
                                    then String dq (double_quotes sv ++ str1 dq)
                                    else sv)) headers ;;
                     Ok (join "," cells)) l ;;
        Ok (lines (headerRow :: dataRows))
  | _ => Ok no_data
  end.

(** [formatOutput(data, format, mode)] *)
Definition formatOutput (data : value) (format : OutputFormat)
  (mode : ResponseMode) : result value :=
  match format with
  | table => s <- formatAsTable data ;; Ok (VStr s)
  | csv => s <- formatAsCSV data ;; Ok (VStr s)
  | json => formatAsJSON data mode
  end.

(** [formatResponse(response, options)] *)
Definition formatResponse (response : QuiverAPIResponse.t)
  (options : ResponseOptions.t) : result OptimizedResponse.t :=
  if str_truthy (QuiverAPIResponse.error response) then
    Ok (OptimizedResponse.mk
          (VObj [("error", VStr (opt_or (QuiverAPIResponse.error response)
                                        EmptyString));
                 ("status", VNum (QuiverAPIResponse.status response))])
          None None)
  else
    let mode := opt_or (ResponseOptions.mode options) detailed in
    let format := opt_or (ResponseOptions.format options) json in
    let rdata := QuiverAPIResponse.data response in
    let summaryInfo :=
      SummaryInfo.mk
        (match rdata with VArr l => Z.of_nat (length l) | _ => 1%Z end)
        (opt_or (ResponseOptions.fields options) ["all"]) mode format in
    processedData <-
      match ResponseOptions.fields options, rdata,
            ResponseOptions.explicitFields options with
      | Some fs, VArr l, Some true => l' <- selectFields l fs ;; Ok (VArr l')
      | _, _, _ => Ok rdata
      end ;;
    if num_truthy (ResponseOptions.page options)
       || num_truthy (ResponseOptions.page_size options)
       || num_truthy (ResponseOptions.limit options)
    then
      let '(pdata, pinfo) := applyPagination processedData options in
      out <- formatOutput pdata format mode ;;
      Ok (OptimizedResponse.mk out (Some pinfo) (Some summaryInfo))
    else
      out <- formatOutput processedData format mode ;;
      Ok (OptimizedResponse.mk out None (Some summaryInfo)).

(** [selectTickerDataSections(data, sections)] *)
Definition sectionMap : list (string * list string) :=
  [("basic", ["ticker"; "name"; "price"; "change"; "volume"; "market_cap"]);
   ("trading", ["price"; "change"; "volume"; "high"; "low"; "open"; "close";
                "vwap"]);
   ("congress", ["congress_trading"; "recent_congress_trades";
                 "congress_sentiment"; "congress_buys"; "congress_sells"]);
   ("sentiment", ["wsb_sentiment"; "social_sentiment"; "options_flow";
                  "reddit_posts"; "twitter_sentiment"]);
   ("contracts", ["gov_contracts"; "lobbying_spending"; "contract_awards";
                  "lobbying_clients"])].

Fixpoint section_lookup (m : list (string * list string)) (k : string)
  : option (list string) :=
  match m with
  | [] => None
  | (k', fs) :: r => if String.eqb k' k then Some fs else section_lookup r k
  end.

(** One step of [sections.forEach]: [sectionMap[section]] is an object
    literal, so a name inherited from [Object.prototype] reads a truthy
    built-in whose [forEach] is undefined, and calling it throws. *)
Definition add_section (fieldsToInclude : list string) (section : string)
  : result (list string) :=
  match section_lookup sectionMap section with
  | Some fs =>
      Ok (fieldsToInclude ++ filter (fun f => negb (mem f fieldsToInclude)) fs)%list
  | None =>
      if mem section object_proto_names
      then Throw "TypeError: sectionMap[section].forEach is not a function"
      else Ok fieldsToInclude
  end.

Definition selectTickerDataSections (data : value)
  (sections : option (list string)) : result value :=
  match sections with
  | None => Ok data
  | Some secs =>
      if negb (truthy data) || mem "all" secs then Ok data
      else
        fieldsToInclude <- foldM add_section [] secs ;;
        filtered <- foldM (fun filtered key =>
                             if mem key fieldsToInclude
                             then x <- js_get data key ;;
                                  Ok (obj_set filtered key x)
                             else Ok filtered) [] (object_keys data) ;;
        Ok (if Nat.ltb 0 (length filtered) then VObj filtered else data)
  end.

(** ** [JSON.parse]

    A parser for JSON text; [None] is a [SyntaxError] (or a number with a
    fraction or an exponent, or a [\u] escape above 00ff, which lie
    outside the model).  The nesting is bounded by a fuel argument; the
    length of the text plus one is always enough. *)

Definition is_ws (c : ascii) : bool :=
  let n := nat_of_ascii c in
  Nat.eqb n 32 || Nat.eqb n 9 || Nat.eqb n 10 || Nat.eqb n 13.

Fixpoint skip_ws (s : string) : string :=
  match s with
  | String c r => if is_ws c then skip_ws r else s
  | EmptyString => s
  end.

Fixpoint strip_prefix (p s : string) : option string :=
  match p, s with
  | EmptyString, _ => Some s
  | String c p', String c' s' =>
      if Ascii.eqb c c' then strip_prefix p' s' else None
  | String _ _, EmptyString => None
  end.

Fixpoint span_digits (s : string) : uint * string :=
  match s with
  | String c r =>
      match digit_of c with
      | Some d => let '(u, rest) := span_digits r in (d u, rest)
      | None => (Nil, s)
      end
  | EmptyString => (Nil, s)
  end.

(** A number may not go on with a digit after a leading zero, nor with a
    fraction or an exponent (not representable here). *)
Definition number_continues (s : string) : bool :=
  match s with
  | String c _ =>
      match digit_of c with
      | Some _ => true
      | None => Ascii.eqb c "." || Ascii.eqb c "e" || Ascii.eqb c "E"
      end
  | EmptyString => false
  end.

Definition parse_nat (s : string) : option (N * string) :=
  match s with
  | String c r =>
      if Ascii.eqb c "0" then
        if number_continues r then None else Some (0%N, r)
      else match digit_of c with
           | Some d =>
               let '(u, rest) := span_digits r in
               if number_continues rest then None
               else Some (N.of_uint (d u), rest)
           | None => None
           end
  | EmptyString => None
  end.

Definition parse_number (s : string) : option (Z * string) :=
  match s with
  | String c r =>
      if Ascii.eqb c "-" then
        match parse_nat r with
        | Some (n, r') => Some ((- Z.of_N n)%Z, r')
        | None => None
        end
      else
        match parse_nat s with
        | Some (n, r') => Some (Z.of_N n, r')
        | None => None
        end
  | EmptyString => None
  end.

Definition hex_val (c : ascii) : option nat :=
  let n := nat_of_ascii c in
  if Nat.leb 48 n && Nat.leb n 57 then Some (n - 48)
  else if Nat.leb 97 n && Nat.leb n 102 then Some (n - 87)
  else if Nat.leb 65 n && Nat.leb n 70 then Some (n - 55)
  else None.

(** The character denoted by a one-letter escape. *)
Definition simple_escape (e : ascii) : option ascii :=
  let n := nat_of_ascii e in
  if Nat.eqb n 34 then Some dq
  else if Nat.eqb n 92 then Some e
  else if Nat.eqb n 47 then Some e
  else if Nat.eqb n 98 then Some (ascii_of_nat 8)
  else if Nat.eqb n 102 then Some (ascii_of_nat 12)
  else if Nat.eqb n 110 then Some (ascii_of_nat 10)
  else if Nat.eqb n 114 then Some (ascii_of_nat 13)
  else if Nat.eqb n 116 then Some (ascii_of_nat 9)
  else None.

Definition prepend (c : ascii) (o : option (string * string))
  : option (string * string) :=
  match o with Some (t, r) => Some (String c t, r) | None => None end.

(** The body of a string literal, after its opening quote. *)
Fixpoint parse_str (s : string) : option (string * string) :=
  match s with
  | EmptyString => None
  | String c r =>
      if Ascii.eqb c dq then Some (EmptyString, r)
      else if Ascii.eqb c "\" then
        match r with
        | String e r2 =>
            match simple_escape e with
            | Some c' => prepend c' (parse_str r2)
            | None =>
                if Ascii.eqb e "u" then
                  match r2 with
                  | String h1 (String h2 (String h3 (String h4 r3))) =>
                      match hex_val h1, hex_val h2, hex_val h3, hex_val h4 with
                      | Some 0, Some 0, Some a, Some b =>
                          prepend (ascii_of_nat (16 * a + b)) (parse_str r3)
                      | _, _, _, _ => None
                      end
                  | _ => None
                  end
                else None
            end
        | EmptyString => None
        end
      else if Nat.ltb (nat_of_ascii c) 32 then None
      else prepend c (parse_str r)
  end.

(** The next non-blank character and what follows it. *)
Definition next_char (s : string) : option (ascii * string) :=
  match skip_ws s with
  | String c r => Some (c, r)
  | EmptyString => None
  end.

Fixpoint parse_value (n : nat) (s : string) : option (value * string) :=
  match n with
  | O => None
  | S n' =>
      let s := skip_ws s in
      match strip_prefix "null" s, strip_prefix "true" s,
            strip_prefix "false" s with
      | Some r, _, _ => Some (VNull, r)
      | _, Some r, _ => Some (VBool true, r)
      | _, _, Some r => Some (VBool false, r)
      | None, None, None =>
          match s with
          | String c r =>
              if Ascii.eqb c "[" then
                match next_char r with
                | Some (c', r') =>
                    if Ascii.eqb c' "]" then Some (VArr [], r')
                    else parse_elements n' [] r
                | None => None
                end
              else if Ascii.eqb c "{" then
                match next_char r with
                | Some (c', r') =>
                    if Ascii.eqb c' "}" then Some (VObj [], r')
                    else parse_members n' [] r
                | None => None
                end
              else if Ascii.eqb c dq then
                match parse_str r with
                | Some (t, r') => Some (VStr t, r')
                | None => None
                end
              else
                match parse_number s with
                | Some (z, r') => Some (VNum z, r')
                | None => None
                end
          | EmptyString => None
          end
      end
  end
with parse_elements (n : nat) (acc : list value) (s : string)
  : option (value * string) :=
  match n with
  | O => None
  | S n' =>
      match parse_value n' s with
      | Some (v, r) =>
          match next_char r with
          | Some (c, r') =>
              if Ascii.eqb c "," then parse_elements n' (acc ++ [v]) r'
              else if Ascii.eqb c "]" then Some (VArr (acc ++ [v]), r')
              else None
          | None => None
          end
      | None => None
      end
  end
with parse_members (n : nat) (acc : list (string * value)) (s : string)
  : option (value * string) :=
  match n with
  | O => None
  | S n' =>
      match next_char s with
      | Some (c, r) =>
          if Ascii.eqb c dq then
            match parse_str r with
            | Some (k, r1) =>
                match next_char r1 with
                | Some (c1, r2) =>
                    if Ascii.eqb c1 ":" then
                      match parse_value n' r2 with
                      | Some (v, r3) =>
                          let acc' := obj_define acc k v in
                          match next_char r3 with
                          | Some (c3, r4) =>
                              if Ascii.eqb c3 "," then parse_members n' acc' r4
                              else if Ascii.eqb c3 "}" then Some (VObj acc', r4)
                              else None
                          | None => None
                          end
                      | None => None
                      end
                    else None
                | None => None
                end
            | None => None
            end
          else None
      | None => None
      end
  end.

(** [JSON.parse(s)]. *)
Definition JSON_parse (s : string) : option value :=
  match parse_value (S (String.length s)) s with
  | Some (v, r) =>
      match skip_ws r with EmptyString => Some v | _ => None end
  | None => None
  end.

(** ** Helpers for stating properties *)

Definition rmap {A B} (f : A -> B) (r : result A) : result B :=
  match r with Ok a => Ok (f a) | Throw m => Throw m | Beyond => Beyond end.

(** The options [o] with the given mode and format. *)
Definition with_mode_format (o : ResponseOptions.t) (m : ResponseMode)
  (f : OutputFormat) : ResponseOptions.t :=
  ResponseOptions.mk (Some m) (Some f) (ResponseOptions.fields o)
    (ResponseOptions.explicitFields o) (ResponseOptions.page o)
    (ResponseOptions.page_size o) (ResponseOptions.limit o).

Definition no_options : ResponseOptions.t :=
  ResponseOptions.mk None None None None None None None.

(** ** Concrete inputs and statement helpers *)

Definition timeout_response : QuiverAPIResponse.t :=
  QuiverAPIResponse.mk (VArr [VNum 1]) (Some "timeout") 500.

Definition busy_options : ResponseOptions.t :=
  ResponseOptions.mk (Some compact) (Some table) (Some ["a"]) (Some true)
    (Some 2%Z) (Some 3%Z) (Some 4%Z).

Definition ticker_row : value := VObj [("ticker", VStr "A"); ("n", VNum 1)].

Definition one_row : value := VArr [VObj [("a", VStr "x")]].

Definition data_and_pagination (r : result OptimizedResponse.t)
  : result (value * option PaginationInfo.t) :=
  rmap (fun out => (OptimizedResponse.data out,
                    OptimizedResponse.pagination out)) r.

Definition c_null_row : value := VObj [("c", VNull)].

Definition projecting (fs : list string) : ResponseOptions.t :=
  ResponseOptions.mk None None (Some fs) (Some true) None None None.

Definition native_toString : string :=
  "function toString() { [native code] }".

(** ** Values that JSON can represent

    An object built by JS code lists its own keys without repetition,
    the array-index keys first in ascending order ([obj_define]); JSON can
    represent [null], booleans, numbers, strings, arrays and such objects
    whose values it can represent, but not [undefined], functions or the
    built-in prototypes. *)
Fixpoint nodup_keys (l : list string) : bool :=
  match l with
  | [] => true
  | k :: r => negb (mem k r) && nodup_keys r
  end.

Definition index_before (k k' : string) : bool :=
  negb (is_index_key k') || (is_index_key k && (index_val k <? index_val k')%N).

Fixpoint idx_sorted (l : list string) : bool :=
  match l with
  | [] => true
  | k :: r => forallb (index_before k) r && idx_sorted r
  end.

Definition normalized (o : list (string * value)) : bool :=
  nodup_keys (map fst o) && idx_sorted (map fst o).

(** A value [JSON.stringify] writes out and [JSON.parse] reads back. *)
Fixpoint serializable (v : value) : bool :=
  match v with
  | VNull | VBool _ | VNum _ | VStr _ => true
  | VArr l => forallb serializable l
  | VObj o => normalized o && forallb (fun kv => serializable (snd kv)) o
  | VUndef | VFun _ _ | VProto _ => false
  end.

(** Text that may follow a complete JSON value inside a JSON text. *)
Definition ends_value (s : string) : bool :=
  match s with
  | EmptyString => true
  | String c _ => Ascii.eqb c "," || Ascii.eqb c "]" || Ascii.eqb c "}"
  end.

(** The serialisation of a value starts with a character that is not a
    blank and does not close an array or an object. *)
Definition starts_value (s : string) : bool :=
  match s with
  | EmptyString => false
  | String c _ => negb (is_ws c) && negb (Ascii.eqb c "]") && negb (Ascii.eqb c "}")
  end.

(** The text [s] parses back to [v], whatever follows it, given fuel for
    its length. *)
Definition roundtrips (v : value) (s : string) : Prop :=
  forall n rest, String.length s < n -> ends_value rest = true ->
  parse_value n (s ++ rest) = Some (v, rest).

(** The per-element and per-member steps of [json_stringify]. *)
Definition arr_part (x : value) : result string :=
  r <- json_stringify x ;;
  match r with Some p => Ok p | None => Ok "null" end.

Definition obj_part (kv : string * value) : result (list string) :=
  r <- json_stringify (snd kv) ;;
  match r with Some p => Ok [quote (fst kv) ++ ":" ++ p] | None => Ok [] end.

(** Induction on values through the elements of arrays and objects. *)
Section value_ind'.
  Variable P : value -> Prop.
  Hypothesis HUndef : P VUndef.
  Hypothesis HNull : P VNull.
  Hypothesis HBool : forall b, P (VBool b).
  Hypothesis HNum : forall z, P (VNum z).
  Hypothesis HStr : forall s, P (VStr s).
  Hypothesis HArr : forall l, Forall P l -> P (VArr l).
  Hypothesis HObj : forall o, Forall (fun kv => P (snd kv)) o -> P (VObj o).
  Hypothesis HFun : forall p k, P (VFun p k).
  Hypothesis HProto : forall p, P (VProto p).

Fixpoint value_ind' (v : value) : P v :=
    match v with
    | VUndef => HUndef
    | VNull => HNull
    | VBool b => HBool b
    | VNum z => HNum z
    | VStr s => HStr s
    | VArr l =>
        HArr l ((fix go (l : list value) : Forall P l :=
                   match l with
                   | [] => Forall_nil _
                   | x :: r => Forall_cons x (value_ind' x) (go r)
                   end) l)
    | VObj o =>
        HObj o ((fix go (o : list (string * value))
                   : Forall (fun kv => P (snd kv)) o :=
                   match o with
                   | [] => Forall_nil _
                   | kv :: r => Forall_cons kv (value_ind' (snd kv)) (go r)
                   end) o)
    | VFun p k => HFun p k
    | VProto p => HProto p
    end.
End value_ind'.

(** First characters of a number written by [Z_to_dec]. *)
Definition num_start (c : ascii) : Prop :=
  In c ["0"; "1"; "2"; "3"; "4"; "5"; "6"; "7"; "8"; "9"; "-"]%char.

(** A serialisable value is written out as a text that parses back to it. *)
Definition stringify_ok (v : value) : Prop :=
  serializable v = true ->
  exists s, json_stringify v = Ok (Some s) /\ starts_value s = true /\
            roundtrips v s.

(** Two quote rows and a one-row page of them. *)
Definition quote_rows : value :=
  VArr [VObj [("ticker", VStr "AAPL"); ("price", VNum 190)];
        VObj [("ticker", VStr "MSFT"); ("price", VNum 410)]].

Definition quote_response : QuiverAPIResponse.t :=
  QuiverAPIResponse.mk quote_rows None 200.

Definition page_one : ResponseOptions.t :=
  ResponseOptions.mk None None None None (Some 1%Z) (Some 1%Z) None.

(** * Models of the tool handlers and of the CallTool handler *)

(** ** Pagination windows *)

Definition with_page (o : ResponseOptions.t) (p : Z) : ResponseOptions.t :=
  ResponseOptions.mk (ResponseOptions.mode o) (ResponseOptions.format o)
    (ResponseOptions.fields o) (ResponseOptions.explicitFields o) (Some p)
    (ResponseOptions.page_size o) (ResponseOptions.limit o).

Definition page_items (l : list value) (o : ResponseOptions.t) : list value :=
  match fst (applyPagination (VArr l) o) with VArr d => d | _ => [] end.

Definition page_numbers (t : Z) : list Z := map Z.of_nat (seq 1 (Z.to_nat t)).

(** ** tools.ts *)

Module ToolArgs.
Record t : Type := mk {
    mode : option ResponseMode;
    format : option OutputFormat;
    fields : option (list string);
    page : option Z;
    page_size : option Z;
    limit : option Z
  }.
End ToolArgs.

Module DEFAULT_LIMITS.
Definition companies : Z := 100.
Definition funds : Z := 50.
Definition congress_trading : Z := 200.
Definition congress_holdings : Z := 100.
Definition lobbying : Z := 50.
Definition gov_contracts : Z := 50.
Definition bulk_data : Z := 1000.
Definition ticker_data : Z := 1.
End DEFAULT_LIMITS.

Definition standard_options (args : ToolArgs.t) (default_limit : Z)
  : ResponseOptions.t :=
  ResponseOptions.mk
    (Some (opt_or (ToolArgs.mode args) detailed))
    (Some (opt_or (ToolArgs.format args) json))
    (ToolArgs.fields args)
    (Some (match ToolArgs.fields args with Some _ => true | None => false end))
    (ToolArgs.page args)
    (ToolArgs.page_size args)
    (Some (num_or (ToolArgs.limit args) default_limit)).

Definition lobbying_options (args : ToolArgs.t) : ResponseOptions.t :=
  ResponseOptions.mk
    (Some (opt_or (ToolArgs.mode args) detailed))
    (Some (opt_or (ToolArgs.format args) json))
    (ToolArgs.fields args)
    (Some (match ToolArgs.fields args with Some _ => true | None => false end))
    None None
    (Some (num_or (ToolArgs.limit args) DEFAULT_LIMITS.lobbying)).

Definition bulk_congress_trading_options (args : ToolArgs.t) : ResponseOptions.t :=
  ResponseOptions.mk
    (Some (opt_or (ToolArgs.mode args) summary))
    (Some (opt_or (ToolArgs.format args) json))
    (ToolArgs.fields args)
    (Some (match ToolArgs.fields args with Some _ => true | None => false end))
    None None
    (Some (num_or (ToolArgs.limit args) DEFAULT_LIMITS.bulk_data)).

Definition bill_summaries_options (args : ToolArgs.t) : ResponseOptions.t :=
  ResponseOptions.mk
    (Some (opt_or (ToolArgs.mode args) detailed))
    (Some (opt_or (ToolArgs.format args) json))
    (ToolArgs.fields args) None None None (ToolArgs.limit args).

Definition ticker_data_options (args : ToolArgs.t) : ResponseOptions.t :=
  ResponseOptions.mk
    (Some (opt_or (ToolArgs.mode args) summary))
    (Some (opt_or (ToolArgs.format args) json))
    (ToolArgs.fields args) None
    (ToolArgs.page args) (ToolArgs.page_size args) (ToolArgs.limit args).

Definition no_tool_args : ToolArgs.t := ToolArgs.mk None None None None None None.

Definition without_fields (args : ToolArgs.t) : ToolArgs.t :=
  ToolArgs.mk (ToolArgs.mode args) (ToolArgs.format args) None
    (ToolArgs.page args) (ToolArgs.page_size args) (ToolArgs.limit args).

(** ** index.ts: the CallTool handler *)

Definition mode_name (m : ResponseMode) : string :=
  match m with compact => "compact" | summary => "summary" | detailed => "detailed" end.

Definition format_name (f : OutputFormat) : string :=
  match f with json => "json" | table => "table" | csv => "csv" end.

Definition pagination_value (p : PaginationInfo.t) : value :=
  VObj [("current_page", VNum (PaginationInfo.current_page p));
        ("page_size", VNum (PaginationInfo.page_size p));
        ("total_items", VNum (PaginationInfo.total_items p));
        ("total_pages", VNum (PaginationInfo.total_pages p));
        ("has_next", VBool (PaginationInfo.has_next p));
        ("has_previous", VBool (PaginationInfo.has_previous p))].

Definition summary_value (s : SummaryInfo.t) : value :=
  VObj [("total_items", VNum (SummaryInfo.total_items s));
        ("fields_included", VArr (map VStr (SummaryInfo.fields_included s)));
        ("mode", VStr (mode_name (SummaryInfo.mode s)));
        ("format", VStr (format_name (SummaryInfo.format s)))].

(** The object literal [formatResponse] returns: [data], then
    [pagination] and [summary] when present. *)
Definition optimized_value (out : OptimizedResponse.t) : value :=
  VObj (("data", OptimizedResponse.data out)
        :: match OptimizedResponse.pagination out with
           | Some p => [("pagination", pagination_value p)]
           | None => []
           end
        ++ match OptimizedResponse.summary out with
           | Some s => [("summary", summary_value s)]
           | None => []
           end).

Module CallToolReply.
Record t : Type := mk {
    text : value;      (* [content[0].text] *)
    isError : bool     (* [isError], [false] when absent *)
  }.
End CallToolReply.

(** The reply built from the handler's [result] (lines 131-162); a
    [Throw] is handed to the [catch] of line 164. *)
Definition call_tool_reply (tool_result : value) : result CallToolReply.t :=
  e <- js_get tool_result "error" ;;
  if truthy e then
    es <- to_js_string e ;;
    st <- js_get tool_result "status" ;;
    ss <- to_js_string st ;;
    Ok (CallToolReply.mk (VStr ("Error: " ++ es ++ " (Status: " ++ ss ++ ")")) true)
  else if truthy tool_result && is_object tool_result
          && (js_in "data" tool_result || js_in "summary" tool_result
              || js_in "pagination" tool_result)
  then
    d <- js_get tool_result "data" ;;
    match d with
    | VStr s => Ok (CallToolReply.mk (VStr s) false)
    | _ => t <- JSON_stringify d ;; Ok (CallToolReply.mk t false)
    end
  else
    d <- js_get tool_result "data" ;;
    t <- JSON_stringify d ;;
    Ok (CallToolReply.mk t false).

(** ** Reading CSV text back *)

(** The escaping of one cell in [formatAsCSV] (lines 261-263). *)
Definition csv_field (sv : string) : string :=
  if has_char "," sv || has_char dq sv
  then String dq (double_quotes sv ++ str1 dq) else sv.

(** The text of each cell of a row: [String(item[header] || '')] in
    [formatAsTable] (line 236) and in [formatAsCSV] (lines 259-260) before
    escaping. *)
Definition cell_texts (item : value) (headers : list string) : result (list string) :=
  mapM (fun header =>
          x <- js_get item header ;;
          to_js_string (if truthy x then x else VStr EmptyString)) headers.

(** An RFC 4180 reader: records end at a line feed, fields at a comma; a
    field opening with a double quote runs to the next lone double quote,
    and a doubled double quote inside it stands for one. *)
Inductive csv_state : Type := FieldStart | Unquoted | Quoted | QuoteSeen.

Fixpoint csv_scan (s : string) (st : csv_state) (cur : string)
  (row : list string) (rows : list (list string)) : option (list (list string)) :=
  match s with
  | EmptyString =>
      match st with
      | Quoted => None
      | _ => Some (rows ++ [row ++ [cur]])%list
      end
  | String c r =>
      match st with
      | Quoted =>
          if Ascii.eqb c dq then csv_scan r QuoteSeen cur row rows
          else csv_scan r Quoted (cur ++ str1 c) row rows
      | _ =>
          if Ascii.eqb c "," then
            csv_scan r FieldStart EmptyString (row ++ [cur])%list rows
          else if Ascii.eqb c nl then
            csv_scan r FieldStart EmptyString [] (rows ++ [row ++ [cur]])%list
          else
            match st with
            | FieldStart =>
                if Ascii.eqb c dq then csv_scan r Quoted cur row rows
                else csv_scan r Unquoted (cur ++ str1 c) row rows
            | QuoteSeen =>
                if Ascii.eqb c dq then csv_scan r Quoted (cur ++ str1 dq) row rows
                else None
            | _ => csv_scan r Unquoted (cur ++ str1 c) row rows
            end
      end
  end.

Definition csv_parse (s : string) : option (list (list string)) :=
  csv_scan s FieldStart EmptyString [] [].

(** ** Sections of ticker data *)

(** [k] belongs to one of the named sections of [sectionMap]. *)
Definition in_sections (secs : list string) (k : string) : bool :=
  existsb (fun s => match section_lookup sectionMap s with
                    | Some fs => mem k fs
                    | None => false
                    end) secs.

Definition all_section_fields : list string := concat (map snd sectionMap).

(** ** What [selectFields] keeps *)

(** Each property [selectFields] copies is a requested field that [item]
    has, with the value read from [item]. *)
Definition copied_from (fields : list string) (item : value) (kv : string * value)
  : Prop :=
  mem (fst kv) fields = true /\ js_in (fst kv) item = true /\
  js_get item (fst kv) = Ok (snd kv).

(** ** Reading a markdown table back *)

(** [s.split(c)]. *)
Fixpoint split_on (c : ascii) (s : string) : list string :=
  match s with
  | EmptyString => [EmptyString]
  | String d r =>
      let rest := split_on c r in
      if Ascii.eqb d c then EmptyString :: rest
      else match rest with
           | [] => [str1 d]
           | x :: xs => String d x :: xs
           end
  end.

Fixpoint drop_trailing_space (s : string) : option string :=
  match s with
  | EmptyString => None
  | String c EmptyString => if Ascii.eqb c " " then Some EmptyString else None
  | String c r => option_map (String c) (drop_trailing_space r)
  end.

(** A cell written as one space, its text and one space. *)
Definition strip_cell (s : string) : option string :=
  match s with
  | String c r => if Ascii.eqb c " " then drop_trailing_space r else None
  | EmptyString => None
  end.

Fixpoint mapO {A B} (f : A -> option B) (l : list A) : option (list B) :=
  match l with
  | [] => Some []
  | x :: r =>
      match f x, mapO f r with
      | Some y, Some ys => Some (y :: ys)
      | _, _ => None
      end
  end.

(** The pieces between the first and the last, when both are empty. *)
Fixpoint inner_pieces (l : list string) : option (list string) :=
  match l with
  | [] => None
  | [x] => if String.eqb x EmptyString then Some [] else None
  | x :: r => option_map (cons x) (inner_pieces r)
  end.

(** A markdown table row [| a | b |]: the cells between the bars. *)
Definition md_row (line : string) : option (list string) :=
  match split_on "|" line with
  | EmptyString :: pieces =>
      match inner_pieces pieces with
      | Some cells => mapO strip_cell cells
      | None => None
      end
  | _ => None
  end.

Definition md_parse (txt : string) : option (list (list string)) :=
  mapO md_row (split_on nl txt).

Definition pad_cell (t : string) : string := " " ++ t ++ " ".

(** A row of the table as [formatAsTable] writes it. *)
Definition md_line (cells : list string) : string := "| " ++ join " | " cells ++ " |".

(** ** Concrete inputs for the witnesses of the further properties *)

Definition seven_items : list value := map VNum [1; 2; 3; 4; 5; 6; 7]%Z.

Definition pages_of_three : ResponseOptions.t :=
  ResponseOptions.mk None None None None None (Some 3%Z) None.

Definition smith_row : value := VObj [("name", VStr "Smith, J"); ("qty", VNum 3)].

Definition lee_row : value := VObj [("name", VStr "Lee")].

Definition ticker_object : list (string * value) :=
  [("ticker", VStr "AAPL"); ("price", VNum 190); ("wsb_sentiment", VNum 7)].

(** ** Basic lemmas *)

Lemma ceil_div_spec (a b : Z) :
  (0 < b)%Z -> ((ceil_div a b - 1) * b < a <= ceil_div a b * b)%Z.
Proof.
  intros Hb. unfold ceil_div.
  pose proof (Z.div_mod (- a) b ltac:(lia)) as Hdm.
  pose proof (Z.mod_pos_bound (- a) b Hb) as Hr.
  nia.
Qed.

Lemma num_or_nonzero (o : option Z) (d : Z) :
  d <> 0%Z -> num_or o d <> 0%Z.
Proof.
  intros Hd. destruct o as [n|]; simpl; [|exact Hd].
  destruct (Z.eqb_spec n 0); [exact Hd | exact n0].
Qed.

Lemma length_js_slice_0 {A} (l : list A) (n : Z) :
  (0 < n)%Z -> js_slice l 0 n = firstn (Z.to_nat n) l.
Proof.
  intros Hn. unfold js_slice. simpl.
  replace (Z.min 0 (Z.of_nat (length l))) with 0%Z by lia.
  destruct (Z.ltb_spec n 0); [lia|].
  simpl. rewrite Z.sub_0_r.
  destruct (Z.le_ge_cases n (Z.of_nat (length l))) as [Hle|Hge].
  - rewrite Z.min_l by lia. reflexivity.
  - rewrite Z.min_r by lia. rewrite Nat2Z.id.
    rewrite firstn_all. rewrite firstn_all2; [reflexivity|lia].
Qed.

(** ** C1: the error short-circuit *)

(** C1 (as stated, refuted): an envelope whose error field is set to the
    empty string does not take the short-circuit: the empty string is
    falsy, so the normal path runs and attaches a summary. *)
Lemma formatResponse_empty_error_not_short_circuit :
  QuiverAPIResponse.error (QuiverAPIResponse.mk VUndef (Some EmptyString) 500)
    <> None /\
  formatResponse (QuiverAPIResponse.mk VUndef (Some EmptyString) 500) no_options
  = Ok (OptimizedResponse.mk VUndef None
          (Some (SummaryInfo.mk 1 ["all"] detailed json))).
Proof. split; [discriminate | reflexivity]. Qed.

(** C1 (amended): for every envelope whose error field is a non-empty
    string and for every options value, [formatResponse] returns exactly
    [{ data: { error, status } }], without summary or pagination, whatever
    the data and the options, and does not throw. *)
Theorem formatResponse_error_short_circuit
  (response : QuiverAPIResponse.t) (options : ResponseOptions.t) (e : string)
  (Herr : QuiverAPIResponse.error response = Some e)
  (Hne : e <> EmptyString) :
  formatResponse response options
  = Ok (OptimizedResponse.mk
          (VObj [("error", VStr e);
                 ("status", VNum (QuiverAPIResponse.status response))])
          None None).
Proof.
  unfold formatResponse, str_truthy. rewrite Herr.
  destruct (String.eqb_spec e EmptyString) as [He|_]; [contradiction|].
  reflexivity.
Qed.

Lemma formatResponse_error_short_circuit_witness :
  QuiverAPIResponse.error timeout_response = Some "timeout" /\
  "timeout" <> EmptyString /\
  formatResponse timeout_response busy_options
  = Ok (OptimizedResponse.mk
          (VObj [("error", VStr "timeout"); ("status", VNum 500)]) None None).
Proof.
  split; [reflexivity|]. split; [discriminate|].
  exact (formatResponse_error_short_circuit timeout_response busy_options
           "timeout" eq_refl ltac:(discriminate)).
Defined.

(** ** C2: the pagination block *)

(** C2: for every array reaching the pagination stage, [total_items] is the
    length of the limited array (the page is a slice of that same array),
    [total_pages] is the ceiling of [total_items / page_size] (see
    [ceil_div_spec]; the page size is never zero), [has_next] is
    [current_page < total_pages] and [has_previous] is [current_page > 1];
    and 120 objects with [{limit:50, page:1, page_size:20}] give the block
    [{1, 20, 50, 3, true, false}] and a page of 20 elements. *)
Theorem applyPagination_block_invariant :
  (forall (l : list value) (options : ResponseOptions.t),
    let '(d, p) := applyPagination (VArr l) options in
    let limited := limit_stage l (ResponseOptions.limit options) in
    let start := ((PaginationInfo.current_page p - 1)
                  * PaginationInfo.page_size p)%Z in
    PaginationInfo.total_items p = Z.of_nat (length limited) /\
    d = VArr (js_slice limited start (start + PaginationInfo.page_size p)) /\
    PaginationInfo.page_size p <> 0%Z /\
    PaginationInfo.total_pages p
      = ceil_div (PaginationInfo.total_items p) (PaginationInfo.page_size p) /\
    PaginationInfo.has_next p
      = (PaginationInfo.current_page p <? PaginationInfo.total_pages p)%Z /\
    PaginationInfo.has_previous p = (1 <? PaginationInfo.current_page p)%Z) /\
  (exists out rows,
    formatResponse (QuiverAPIResponse.mk (VArr (repeat ticker_row 120)) None 200)
      (ResponseOptions.mk None None None None (Some 1%Z) (Some 20%Z)
         (Some 50%Z)) = Ok out /\
    OptimizedResponse.pagination out
      = Some (PaginationInfo.mk 1 20 50 3 true false) /\
    OptimizedResponse.data out = VArr rows /\ length rows = 20%nat).
Proof.
  split.
  - intros l options. simpl.
    repeat split; try reflexivity.
    + apply num_or_nonzero. discriminate.
    + apply Z.gtb_ltb.
  - eexists. eexists. split; [vm_compute; reflexivity|].
    split; [reflexivity|]. split; reflexivity.
Qed.

(** ** C3: when a pagination block is attached *)

(** C3 (as stated, refuted): a supplied [page: 0] is falsy, so no
    pagination block is attached. *)
Lemma formatResponse_zero_page_no_pagination :
  formatResponse (QuiverAPIResponse.mk (VArr [VNum 1]) None 200)
    (ResponseOptions.mk None None None None (Some 0%Z) None None)
  = Ok (OptimizedResponse.mk (VArr [VNum 1]) None
          (Some (SummaryInfo.mk 1 ["all"] detailed json))).
Proof. reflexivity. Qed.

(** C3 (amended): a result of [formatResponse] carries a pagination block
    iff the envelope has no (non-empty) error and at least one of [page],
    [page_size], [limit] is supplied with a non-zero value; in particular
    none is attached when all three are absent. *)
Theorem formatResponse_pagination_iff
  (response : QuiverAPIResponse.t) (options : ResponseOptions.t)
  (out : OptimizedResponse.t)
  (Hout : formatResponse response options = Ok out) :
  OptimizedResponse.pagination out <> None <->
  (negb (str_truthy (QuiverAPIResponse.error response))
   && (num_truthy (ResponseOptions.page options)
       || num_truthy (ResponseOptions.page_size options)
       || num_truthy (ResponseOptions.limit options))) = true.
Proof.
  unfold formatResponse in Hout.
  destruct (str_truthy (QuiverAPIResponse.error response)).
  - injection Hout as <-. simpl. split; [intros H; contradiction H; reflexivity
                                         | discriminate].
  - simpl.
    match type of Hout with bind ?m _ = _ => destruct m as [pd| |] end;
      simpl in Hout; try discriminate.
    destruct (num_truthy (ResponseOptions.page options)
              || num_truthy (ResponseOptions.page_size options)
              || num_truthy (ResponseOptions.limit options)).
    + destruct (applyPagination pd options) as [pdata pinfo].
      destruct (formatOutput pdata _ _); simpl in Hout; try discriminate.
      injection Hout as <-. simpl. split; [reflexivity | discriminate].
    + destruct (formatOutput pd _ _); simpl in Hout; try discriminate.
      injection Hout as <-. simpl. split; [intros H; contradiction H; reflexivity
                                           | discriminate].
Qed.

Lemma formatResponse_pagination_iff_witness :
  exists out,
    formatResponse (QuiverAPIResponse.mk (VArr [VNum 1]) None 200)
      (ResponseOptions.mk None None None None (Some 2%Z) None None) = Ok out /\
    (OptimizedResponse.pagination out <> None <->
     (negb (str_truthy None) && (num_truthy (Some 2%Z) || num_truthy None
                                 || num_truthy None)) = true).
Proof.
  eexists. split.
  - reflexivity.
  - apply (formatResponse_pagination_iff
             (QuiverAPIResponse.mk (VArr [VNum 1]) None 200)
             (ResponseOptions.mk None None None None (Some 2%Z) None None)).
    reflexivity.
Defined.

(** ** C5: the limiting stage *)

(** C5 (as stated, refuted): [limit = 0] satisfies [n >= 0], yet the
    limited array keeps its element instead of being cut to length
    [min(0, 1) = 0]. *)
Lemma limit_stage_zero_keeps_all :
  (0 <= 0)%Z /\ limit_stage [VNull] (Some 0%Z) = [VNull] /\
  length (limit_stage [VNull] (Some 0%Z)) <> Nat.min 0 1.
Proof. split; [lia|]. split; [reflexivity | discriminate]. Qed.

(** C5 (amended): a supplied limit [n > 0] cuts the array to its prefix
    of length [min(n, length)]; a limit of 0 or below, or no limit, leaves
    it whole.  Only positions matter. *)
Theorem limit_stage_prefix (l : list value) (limit : option Z) :
  limit_stage l limit
  = match limit with
    | Some n => if (0 <? n)%Z then firstn (Z.to_nat n) l else l
    | None => l
    end /\
  length (limit_stage l limit)
  = match limit with
    | Some n => if (0 <? n)%Z then Nat.min (Z.to_nat n) (length l)
                else length l
    | None => length l
    end.
Proof.
  destruct limit as [n|]; [|split; reflexivity].
  unfold limit_stage.
  destruct (Z.eqb_spec n 0) as [->|Hn0]; simpl.
  - split; reflexivity.
  - rewrite Z.gtb_ltb.
    destruct (Z.ltb_spec 0 n) as [Hpos|Hneg].
    + rewrite length_js_slice_0 by lia.
      split; [reflexivity|]. apply length_firstn.
    + split; reflexivity.
Qed.

(** ** C6: format and mode *)

(** C6 (as stated, refuted): with [format='table'] and [mode='summary']
    the table lists the original elements; the summary object is not an
    array, so a table of it would read [No data available]. *)
Lemma table_summary_renders_original_elements :
  rmap OptimizedResponse.data
    (formatResponse (QuiverAPIResponse.mk one_row None 200)
       (ResponseOptions.mk (Some summary) (Some table) None None None None
          None))
  = Ok (VStr (lines ["| a |"; "| --- |"; "| x |"])) /\
  formatAsTable (createSummary one_row) = Ok no_data.
Proof. split; reflexivity. Qed.

(** C6 (amended): format and mode are separate options, but the mode only
    acts under [format='json']: under [table] and [csv] the output data and
    pagination are the same for every mode, the rendering working on the
    projected, limited and paginated data itself. *)
Theorem formatResponse_mode_ignored_outside_json
  (response : QuiverAPIResponse.t) (options : ResponseOptions.t)
  (m1 m2 : ResponseMode) :
  data_and_pagination
    (formatResponse response (with_mode_format options m1 table))
  = data_and_pagination
      (formatResponse response (with_mode_format options m2 table)) /\
  data_and_pagination
    (formatResponse response (with_mode_format options m1 csv))
  = data_and_pagination
      (formatResponse response (with_mode_format options m2 csv)) /\
  (forall d, formatOutput d table m1 = formatOutput d table m2) /\
  (forall d, formatOutput d csv m1 = formatOutput d csv m2).
Proof.
  unfold data_and_pagination, formatResponse, with_mode_format. simpl.
  split; [|split; [|split; reflexivity]];
  (destruct (str_truthy (QuiverAPIResponse.error response)); [reflexivity|]);
  (match goal with |- rmap _ (bind ?m _) = _ => destruct m as [pd| |] end;
    simpl; try reflexivity);
  (destruct (num_truthy (ResponseOptions.page options)
             || num_truthy (ResponseOptions.page_size options)
             || num_truthy (ResponseOptions.limit options)));
  [ destruct (applyPagination pd _) as [pdata pinfo]; simpl;
    destruct (formatAsTable pdata); reflexivity
  | simpl; destruct (formatAsTable pd); reflexivity
  | destruct (applyPagination pd _) as [pdata pinfo]; simpl;
    destruct (formatAsCSV pdata); reflexivity
  | simpl; destruct (formatAsCSV pd); reflexivity ].
Qed.

(** ** C9: malformed page sizes *)

(** C9 (as stated, refuted): a [page_size] of 0 does not stay 0; the
    default 50 applies and the page count is a plain number. *)
Lemma applyPagination_zero_page_size_defaults :
  applyPagination (VArr [VNull])
    (ResponseOptions.mk None None None None None (Some 0%Z) None)
  = (VArr [VNull], PaginationInfo.mk 1 50 1 1 false false).
Proof. reflexivity. Qed.

Lemma ceil_div_nonpos (a b : Z) :
  (0 <= a)%Z -> (b < 0)%Z -> (ceil_div a b <= 0)%Z.
Proof.
  intros Ha Hb. unfold ceil_div.
  pose proof (Z.div_mod (- a) b ltac:(lia)) as Hdm.
  pose proof (Z.mod_neg_bound (- a) b Hb) as Hr.
  nia.
Qed.

(** C9 (amended): pagination options are never rejected: [page_size] is
    the supplied value unless it is absent or 0, which both give the
    default 50; a negative [page_size] is kept and gives a page count
    [total_pages] at most 0, without any error. *)
Theorem applyPagination_page_size_permissive
  (l : list value) (options : ResponseOptions.t) :
  let '(d, p) := applyPagination (VArr l) options in
  PaginationInfo.page_size p = num_or (ResponseOptions.page_size options) 50 /\
  PaginationInfo.page_size p <> 0%Z /\
  implb (PaginationInfo.page_size p <? 0)%Z
        (PaginationInfo.total_pages p <=? 0)%Z = true.
Proof.
  simpl. split; [reflexivity|]. split.
  - apply num_or_nonzero. discriminate.
  - destruct (Z.ltb_spec (num_or (ResponseOptions.page_size options) 50) 0)
      as [Hneg|]; [|reflexivity].
    simpl. apply Z.leb_le. apply ceil_div_nonpos; [lia | exact Hneg].
Qed.

(** ** C4: field projection *)

(** C4 (code defect): [field in item] also sees the properties inherited
    from [Object.prototype].  Requesting [__proto__] on an object with no
    such own key sets [hasAnyField] while the assignment creates no own
    key, so the object comes out empty; requesting [toString] copies
    [Object.prototype.toString], which [JSON.stringify] drops, so the
    compact output is again an empty object. *)
Theorem selectFields_inherited_field_empties_object :
  rmap OptimizedResponse.data
    (formatResponse (QuiverAPIResponse.mk (VArr [c_null_row]) None 200)
       (projecting ["__proto__"]))
  = Ok (VArr [VObj []]) /\
  selectFields [c_null_row] ["toString"]
  = Ok [VObj [("toString", VFun PObject "toString")]] /\
  JSON_stringify (VArr [VObj [("toString", VFun PObject "toString")]])
  = Ok (VStr "[{}]").
Proof. split; [reflexivity | split; reflexivity]. Qed.

(** ** C8: section selection *)

(** C8 (code defect): [sectionMap] is an object literal, so a section name
    inherited from [Object.prototype] such as [constructor] reads a truthy
    built-in whose [forEach] is undefined: the call throws instead of the
    name being ignored. *)
Theorem selectTickerDataSections_inherited_section_throws :
  selectTickerDataSections (VObj [("ticker", VStr "AAPL")])
    (Some ["constructor"])
  = Throw "TypeError: sectionMap[section].forEach is not a function".
Proof. reflexivity. Qed.

(** ** C10: falsy cells in table and CSV output *)

(** C10 (code defect): a falsy value renders as the empty string, but an
    absent field whose name is inherited from [Object.prototype] (here
    [toString]) renders as the source text of the inherited function, so
    the two are told apart. *)
Theorem format_absent_inherited_field_not_empty :
  formatAsTable (VArr [VObj [("toString", VNum 0)]; VObj []])
  = Ok (lines ["| toString |"; "| --- |"; "|  |";
               "| " ++ native_toString ++ " |"]) /\
  formatAsCSV (VArr [VObj [("toString", VNum 0)]; VObj []])
  = Ok (lines ["toString"; EmptyString; native_toString]).
Proof. split; reflexivity. Qed.

(** ** C7: the round trip of compact mode *)

Lemma str_app_assoc (a b c : string) : (a ++ b) ++ c = a ++ (b ++ c).
Proof. induction a as [|x a IH]; simpl; [reflexivity | now rewrite IH]. Qed.

Lemma str_app_nil (a : string) : a ++ EmptyString = a.
Proof. induction a as [|x a IH]; simpl; [reflexivity | now rewrite IH]. Qed.

Lemma str_length_app (a b : string) :
  String.length (a ++ b) = String.length a + String.length b.
Proof. induction a as [|x a IH]; simpl; [reflexivity | now rewrite IH]. Qed.

Lemma ends_value_cases (s : string) :
  ends_value s = true ->
  s = EmptyString \/ exists r, s = String "," r \/ s = String "]" r \/ s = String "}" r.
Proof.
  destruct s as [|c r]; [now left|]. simpl. intros H. right. exists r.
  destruct (Ascii.eqb_spec c ","); [subst; now left|].
  destruct (Ascii.eqb_spec c "]"); [subst; now right; left|].
  destruct (Ascii.eqb_spec c "}"); [subst; now right; right|].
  discriminate.
Qed.

Lemma quote_char_parse (c : ascii) (X : string) :
  parse_str (quote_char c ++ X) = prepend c (parse_str X).
Proof.
  destruct c as [b0 b1 b2 b3 b4 b5 b6 b7].
  destruct b0, b1, b2, b3, b4, b5, b6, b7; reflexivity.
Qed.

Lemma quote_chars_parse (t X : string) :
  parse_str (quote_chars t ++ String dq X) = Some (t, X).
Proof.
  induction t as [|c t IH]; [reflexivity|].
  simpl. rewrite str_app_assoc, quote_char_parse, IH. reflexivity.
Qed.

Lemma quote_app (t X : string) :
  quote t ++ X = String dq (quote_chars t ++ String dq X).
Proof. unfold quote. simpl. rewrite str_app_assoc. reflexivity. Qed.

Lemma nzhead_not_D0 (u w : uint) : nzhead u <> D0 w.
Proof. induction u; simpl; congruence. Qed.

Lemma pos_uint_head (p : positive) :
  match Pos.to_uint p with Nil | D0 _ => False | _ => True end.
Proof.
  pose proof (Unsigned.to_of (Pos.to_uint p)) as H.
  rewrite Unsigned.of_to in H. simpl in H.
  pose proof (Unsigned.to_uint_nonzero p) as Hz.
  pose proof (Unsigned.to_uint_nonnil p) as Hn.
  destruct (Pos.to_uint p) as [|u|u|u|u|u|u|u|u|u|u] eqn:E; auto.
  unfold unorm in H. simpl in H.
  destruct (nzhead u) eqn:E2; try discriminate.
  - inversion H; subst. apply Hz. reflexivity.
  - inversion H; subst. exact (nzhead_not_D0 _ _ E2).
Qed.

Lemma span_digits_uint (u : uint) (rest : string) :
  ends_value rest = true -> span_digits (uint_digits u ++ rest) = (u, rest).
Proof.
  intros H. induction u; simpl; try (rewrite IHu; reflexivity).
  destruct (ends_value_cases _ H) as [ -> | [r [ -> | [ -> | -> ]]]]; reflexivity.
Qed.

Lemma number_continues_end (rest : string) :
  ends_value rest = true -> number_continues rest = false.
Proof.
  intros H. destruct (ends_value_cases _ H) as [ -> | [r [ -> | [ -> | -> ]]]]; reflexivity.
Qed.

Lemma parse_nat_pos (p : positive) (rest : string) :
  ends_value rest = true ->
  parse_nat (uint_digits (Pos.to_uint p) ++ rest) = Some (Npos p, rest).
Proof.
  intros H. pose proof (pos_uint_head p) as Hh.
  pose proof (Unsigned.of_to p) as Ho.
  destruct (Pos.to_uint p) as [|u|u|u|u|u|u|u|u|u|u]; try contradiction;
    simpl; rewrite (span_digits_uint u rest H), (number_continues_end rest H);
    rewrite <- Ho; reflexivity.
Qed.

Lemma parse_number_dec (z : Z) (rest : string) :
  ends_value rest = true -> parse_number (Z_to_dec z ++ rest) = Some (z, rest).
Proof.
  intros H. destruct z as [|p|p].
  - simpl. destruct (ends_value_cases _ H) as [ -> | [r [ -> | [ -> | -> ]]]]; reflexivity.
  - pose proof (pos_uint_head p) as Hh. unfold Z_to_dec.
    pose proof (parse_nat_pos p rest H) as Hp.
    destruct (Pos.to_uint p) as [|u|u|u|u|u|u|u|u|u|u]; try contradiction;
      simpl in *; rewrite Hp; reflexivity.
  - simpl. rewrite (parse_nat_pos p rest H). reflexivity.
Qed.

Lemma join_cons_prefix (sep x : string) (l : list string) :
  exists Y, join sep (x :: l) = x ++ Y.
Proof.
  destruct l as [|y l].
  - exists EmptyString. simpl. now rewrite str_app_nil.
  - exists (sep ++ join sep (y :: l)). reflexivity.
Qed.

Lemma next_char_start (s X : string) :
  starts_value s = true ->
  exists c Y, next_char (s ++ X) = Some (c, Y) /\
              Ascii.eqb c "]" = false /\ Ascii.eqb c "}" = false.
Proof.
  destruct s as [|c s']; simpl; [discriminate|]. intros H.
  apply andb_prop in H as [H H3]. apply andb_prop in H as [H1 H2].
  exists c, (s' ++ X). unfold next_char. simpl.
  destruct (is_ws c); [discriminate|].
  split; [reflexivity|]. split; now apply negb_true_iff.
Qed.

Lemma next_char_dq (Y : string) : next_char (String dq Y) = Some (dq, Y).
Proof. reflexivity. Qed.

Lemma pv_quote (n : nat) (X : string) :
  parse_value (S n) (String dq X) =
  match parse_str X with Some (t, r') => Some (VStr t, r') | None => None end.
Proof. reflexivity. Qed.

Lemma pv_bracket (n : nat) (X : string) :
  parse_value (S n) (String "[" X) =
  match next_char X with
  | Some (c', r') => if Ascii.eqb c' "]" then Some (VArr [], r')
                     else parse_elements n [] X
  | None => None
  end.
Proof. reflexivity. Qed.

Lemma pv_brace (n : nat) (X : string) :
  parse_value (S n) (String "{" X) =
  match next_char X with
  | Some (c', r') => if Ascii.eqb c' "}" then Some (VObj [], r')
                     else parse_members n [] X
  | None => None
  end.
Proof. reflexivity. Qed.

Lemma pv_num (n : nat) (c : ascii) (X : string) :
  num_start c ->
  parse_value (S n) (String c X) =
  match parse_number (String c X) with
  | Some (z, r') => Some (VNum z, r')
  | None => None
  end.
Proof.
  unfold num_start; simpl.
  intros H; repeat destruct H as [<-|H]; try reflexivity; contradiction.
Qed.

Lemma dec_head (z : Z) :
  exists c X, Z_to_dec z = String c X /\ num_start c.
Proof.
  unfold num_start. destruct z as [|p|p]; simpl.
  - exists "0"%char, EmptyString. simpl; auto.
  - pose proof (pos_uint_head p) as Hh.
    destruct (Pos.to_uint p) as [|u|u|u|u|u|u|u|u|u|u]; try contradiction;
      (eexists _, _; split; [reflexivity | simpl; tauto]).
  - eexists _, _; split; [reflexivity|]; simpl; tauto.
Qed.

Lemma pe_step (n : nat) (acc : list value) (X : string) (v : value) (r : string) :
  parse_value n X = Some (v, r) ->
  parse_elements (S n) acc X =
  match next_char r with
  | Some (c, r') =>
      if Ascii.eqb c "," then parse_elements n (acc ++ [v]) r'
      else if Ascii.eqb c "]" then Some (VArr (acc ++ [v]), r')
      else None
  | None => None
  end.
Proof. intros H. simpl. rewrite H. reflexivity. Qed.

Lemma pm_step (n : nat) (acc : list (string * value)) (k X : string)
  (v : value) (r : string) :
  parse_value n X = Some (v, r) ->
  parse_members (S n) acc (String dq (quote_chars k ++ String dq (String ":" X))) =
  match next_char r with
  | Some (c3, r4) =>
      if Ascii.eqb c3 "," then parse_members n (obj_define acc k v) r4
      else if Ascii.eqb c3 "}" then Some (VObj (obj_define acc k v), r4)
      else None
  | None => None
  end.
Proof.
  intros H. cbn [parse_members]. rewrite next_char_dq.
  change (Ascii.eqb dq dq) with true. cbv iota beta.
  rewrite quote_chars_parse. change (next_char (String ":" X)) with (Some (":"%char, X)).
  cbv iota beta. change (Ascii.eqb ":" ":") with true. cbv iota beta.
  rewrite H. reflexivity.
Qed.

Lemma mem_app_cons (l1 : list string) (k : string) (l2 : list string) :
  nodup_keys (l1 ++ k :: l2) = true -> mem k l1 = false.
Proof.
  induction l1 as [|x l1 IH]; simpl; [reflexivity|]. intros H.
  apply andb_prop in H as [H1 H2]. unfold mem in *. simpl.
  rewrite (IH H2), orb_false_r. apply negb_true_iff in H1.
  destruct (String.eqb_spec k x) as [->|]; [|reflexivity].
  rewrite existsb_app in H1. simpl in H1.
  rewrite String.eqb_refl, orb_true_r in H1. discriminate.
Qed.

Lemma assoc_none (o : list (string * value)) (k : string) :
  mem k (map fst o) = false -> assoc o k = None.
Proof.
  induction o as [|[k' v'] o IH]; simpl; [reflexivity|].
  unfold mem; simpl. intros H. apply orb_false_iff in H as [H1 H2].
  rewrite String.eqb_sym, H1. apply IH. exact H2.
Qed.

Lemma sorted_app_cons (l1 : list string) (k : string) (l2 : list string) :
  idx_sorted (l1 ++ k :: l2) = true ->
  forallb (fun k' => index_before k' k) l1 = true.
Proof.
  induction l1 as [|x l1 IH]; simpl; [reflexivity|]. intros H.
  apply andb_prop in H as [H1 H2]. rewrite (IH H2), andb_true_r.
  rewrite forallb_app in H1. apply andb_prop in H1 as [_ H1].
  simpl in H1. apply andb_prop in H1 as [H1 _]. exact H1.
Qed.

Lemma insert_index_last (o : list (string * value)) (k : string) (v : value) :
  is_index_key k = true ->
  forallb (fun k' => index_before k' k) (map fst o) = true ->
  insert_index o k v = (o ++ [(k, v)])%list.
Proof.
  induction o as [|[k' v'] o IH]; simpl; intros Hk H; [reflexivity|].
  apply andb_prop in H as [H1 H2]. unfold index_before in H1.
  rewrite Hk in H1. simpl in H1. rewrite H1, IH; auto.
Qed.

Lemma obj_define_last (acc : list (string * value)) (k : string) (v : value)
  (m : list (string * value)) :
  normalized (acc ++ (k, v) :: m)%list = true -> obj_define acc k v = (acc ++ [(k, v)])%list.
Proof.
  unfold normalized. rewrite map_app. simpl. intros H.
  apply andb_prop in H as [H1 H2]. unfold obj_define.
  rewrite (assoc_none acc k (mem_app_cons _ _ _ H1)).
  destruct (is_index_key k) eqn:Ek; [|reflexivity].
  apply insert_index_last; [exact Ek|]. eapply sorted_app_cons; eauto.
Qed.

Lemma assoc_serializable (o : list (string * value)) (k : string) (f : value) :
  forallb (fun kv => serializable (snd kv)) o = true ->
  assoc o k = Some f -> serializable f = true.
Proof.
  induction o as [|[k' v'] o IH]; simpl; [discriminate|].
  intros H. apply andb_prop in H as [H1 H2].
  destruct (String.eqb k' k); [congruence|]. auto.
Qed.

Lemma serializable_not_callable (f : value) :
  serializable f = true -> callable f = false.
Proof. destruct f as [| | | | | | |p k|p]; simpl; congruence. Qed.

Lemma stringify_arr (l : list value) :
  json_stringify (VArr l) =
  (parts <- mapM arr_part l ;; Ok (Some ("[" ++ join "," parts ++ "]"))).
Proof. reflexivity. Qed.

Lemma stringify_obj (o : list (string * value)) :
  json_stringify (VObj o) =
  if match assoc o "toJSON" with Some f => callable f | None => false end
  then Beyond
  else (parts <- mapM obj_part o ;;
        Ok (Some ("{" ++ join "," (concat parts) ++ "}"))).
Proof. reflexivity. Qed.

Lemma arr_parts (l : list value) :
  Forall stringify_ok l -> forallb serializable l = true ->
  exists parts, mapM arr_part l = Ok parts /\
    Forall2 (fun v s => starts_value s = true /\ roundtrips v s) l parts.
Proof.
  induction 1 as [|x l Hx HF IH]; simpl; intros Hs.
  - exists []. split; [reflexivity | constructor].
  - apply andb_prop in Hs as [Hs1 Hs2].
    destruct (Hx Hs1) as [s [Hj [Hst Hrt]]].
    destruct (IH Hs2) as [ps [Hm HF2]].
    exists (s :: ps). split; [|constructor; auto].
    cbn [mapM]. unfold arr_part at 1. rewrite Hj. simpl. rewrite Hm. reflexivity.
Qed.

Lemma obj_parts (o : list (string * value)) :
  Forall (fun kv => stringify_ok (snd kv)) o ->
  forallb (fun kv => serializable (snd kv)) o = true ->
  exists ps, mapM obj_part o = Ok ps /\
    Forall2 (fun kv p => exists s, p = [quote (fst kv) ++ ":" ++ s] /\
                         roundtrips (snd kv) s) o ps.
Proof.
  induction 1 as [|x o Hx HF IH]; simpl; intros Hs.
  - exists []. split; [reflexivity | constructor].
  - apply andb_prop in Hs as [Hs1 Hs2].
    destruct (Hx Hs1) as [s [Hj [Hst Hrt]]].
    destruct (IH Hs2) as [ps [Hm HF2]].
    exists ([quote (fst x) ++ ":" ++ s] :: ps).
    split; [|constructor; [exists s; split; [reflexivity | exact Hrt] | exact HF2]].
    cbn [mapM]. unfold obj_part at 1. rewrite Hj. simpl. rewrite Hm. reflexivity.
Qed.

Lemma parse_elements_ok (l : list value) (parts : list string) :
  Forall2 (fun v s => starts_value s = true /\ roundtrips v s) l parts ->
  l <> [] ->
  forall acc n rest, S (String.length (join "," parts)) < n ->
  ends_value rest = true ->
  parse_elements n acc (join "," parts ++ String "]" rest) =
  Some (VArr (acc ++ l), rest).
Proof.
  induction 1 as [|x s l ps [Hst Hrt] HF IH]; intros Hne acc n rest Hn He;
    [congruence|].
  destruct n as [|n]; [simpl in Hn; lia|].
  destruct l as [|y l'], ps as [|t ps']; try (inversion HF; fail).
  - simpl join in *. rewrite (pe_step n acc _ x (String "]" rest)).
    + reflexivity.
    + apply Hrt; [lia | reflexivity].
  - change (join "," (s :: t :: ps')) with (s ++ "," ++ join "," (t :: ps')) in *.
    rewrite str_length_app in Hn. cbn [String.append String.length] in Hn.
    rewrite str_app_assoc. simpl ("," ++ _).
    rewrite (pe_step n acc _ x (String "," (join "," (t :: ps') ++ String "]" rest))).
    + change (parse_elements n (acc ++ [x]) (join "," (t :: ps') ++ String "]" rest)
              = Some (VArr (acc ++ x :: y :: l'), rest)).
      rewrite (IH ltac:(discriminate) (acc ++ [x])%list n rest); [|lia|exact He].
      rewrite <- app_assoc. reflexivity.
    + apply Hrt; [lia | reflexivity].
Qed.

Lemma member_app (k s X : string) :
  (quote k ++ ":" ++ s) ++ X =
  String dq (quote_chars k ++ String dq (String ":" (s ++ X))).
Proof. rewrite str_app_assoc, quote_app. simpl. reflexivity. Qed.

Lemma parse_members_ok (o : list (string * value)) (ps : list (list string)) :
  Forall2 (fun kv p => exists s, p = [quote (fst kv) ++ ":" ++ s] /\
                       roundtrips (snd kv) s) o ps ->
  o <> [] ->
  forall acc n rest, normalized (acc ++ o)%list = true ->
  String.length (join "," (concat ps)) < n ->
  ends_value rest = true ->
  parse_members n acc (join "," (concat ps) ++ String "}" rest) =
  Some (VObj (acc ++ o), rest).
Proof.
  induction 1 as [|[k v] p o ps [s [-> Hrt]] HF IH];
    intros Hne acc n rest Hnorm Hn He; [congruence|].
  destruct n as [|n]; [simpl in Hn; lia|].
  simpl fst in *; simpl snd in *.
  destruct o as [|kv' o'], ps as [|p' ps']; try (inversion HF; fail).
  - change (join "," (concat [[quote k ++ ":" ++ s]]))
      with (quote k ++ ":" ++ s) in *.
    rewrite member_app.
    rewrite (pm_step n acc k (s ++ String "}" rest) v (String "}" rest)).
    + rewrite (obj_define_last acc k v [] Hnorm). reflexivity.
    + rewrite str_length_app in Hn. simpl in Hn. apply Hrt; [lia | reflexivity].
  - inversion HF as [|? ? ? ? [s' [Hp' _]] _]; subst p'.
    change (concat ([quote k ++ ":" ++ s] :: [quote (fst kv') ++ ":" ++ s'] :: ps'))
      with ((quote k ++ ":" ++ s) :: concat ([quote (fst kv') ++ ":" ++ s'] :: ps')) in *.
    set (J := concat ([quote (fst kv') ++ ":" ++ s'] :: ps')) in *.
    assert (HJ : join "," ((quote k ++ ":" ++ s) :: J) =
                 (quote k ++ ":" ++ s) ++ "," ++ join "," J) by reflexivity.
    rewrite HJ in *.
    assert (Hl : String.length s < n /\ String.length (join "," J) < n).
    { rewrite !str_length_app in Hn.
      cbn [String.length String.append] in Hn. lia. }
    rewrite str_app_assoc, member_app.
    rewrite (pm_step n acc k _ v (String "," (join "," J ++ String "}" rest))).
    + rewrite (obj_define_last acc k v (kv' :: o') Hnorm).
      change (parse_members n (acc ++ [(k, v)]) (join "," J ++ String "}" rest)
              = Some (VObj (acc ++ (k, v) :: kv' :: o'), rest)).
      rewrite (IH ltac:(discriminate) (acc ++ [(k, v)])%list n rest).
      * rewrite <- app_assoc. reflexivity.
      * rewrite <- app_assoc. exact Hnorm.
      * lia.
      * exact He.
    + rewrite str_app_assoc. simpl. apply Hrt.
      * lia.
      * reflexivity.
Qed.

Lemma stringify_roundtrip (v : value) : stringify_ok v.
Proof.
  induction v using value_ind'; unfold stringify_ok; intros Hs; simpl in Hs;
    try discriminate.
  - exists "null". split; [reflexivity|]. split; [reflexivity|].
    intros [|n] rest Hn He; [simpl in Hn; lia | reflexivity].
  - destruct b.
    + exists "true". split; [reflexivity|]. split; [reflexivity|].
      intros [|n] rest Hn He; [simpl in Hn; lia | reflexivity].
    + exists "false". split; [reflexivity|]. split; [reflexivity|].
      intros [|n] rest Hn He; [simpl in Hn; lia | reflexivity].
  - exists (Z_to_dec z). split; [reflexivity|].
    destruct (dec_head z) as [c [X [Hd Hc]]]. split.
    + rewrite Hd. unfold num_start in Hc. simpl in Hc.
      repeat destruct Hc as [<-|Hc]; try reflexivity; contradiction.
    + intros [|n] rest Hn He; [rewrite Hd in Hn; simpl in Hn; lia|].
      rewrite Hd. simpl (String c X ++ rest). rewrite (pv_num n c _ Hc).
      change (String c (X ++ rest)) with (String c X ++ rest).
      rewrite <- Hd, (parse_number_dec z rest He). reflexivity.
  - exists (quote s). split; [reflexivity|]. split; [reflexivity|].
    intros [|n] rest Hn He; [simpl in Hn; lia|].
    rewrite quote_app, pv_quote, quote_chars_parse. reflexivity.
  - destruct (arr_parts l H Hs) as [parts [Hm HF]].
    exists ("[" ++ join "," parts ++ "]"). split.
    { rewrite stringify_arr, Hm. reflexivity. }
    split; [reflexivity|].
    intros [|n] rest Hn He; [simpl in Hn; lia|].
    replace (("[" ++ join "," parts ++ "]") ++ rest)
      with (String "[" (join "," parts ++ String "]" rest))
      by (simpl; rewrite str_app_assoc; reflexivity).
    rewrite pv_bracket.
    destruct l as [|x l'].
    + inversion HF; subst. reflexivity.
    + inversion HF as [|? s ? ps [Hst _] _]; subst.
      destruct (join_cons_prefix "," s ps) as [Y HY].
      destruct (next_char_start s (Y ++ String "]" rest) Hst)
        as [c [Z [Hnc [Hc1 _]]]].
      rewrite HY, str_app_assoc, Hnc, Hc1, <- str_app_assoc, <- HY.
      apply (parse_elements_ok (x :: l') (s :: ps) HF ltac:(discriminate) [] n rest);
        [|exact He].
      cbn [String.length String.append] in Hn. rewrite !str_length_app in Hn.
      cbn [String.length String.append] in Hn. lia.
  - apply andb_prop in Hs as [Hnorm Hs].
    destruct (obj_parts o H Hs) as [ps [Hm HF]].
    exists ("{" ++ join "," (concat ps) ++ "}"). split.
    { rewrite stringify_obj.
      destruct (assoc o "toJSON") as [f|] eqn:Ea.
      - rewrite (serializable_not_callable f (assoc_serializable o _ f Hs Ea)).
        rewrite Hm. reflexivity.
      - rewrite Hm. reflexivity. }
    split; [reflexivity|].
    intros [|n] rest Hn He; [simpl in Hn; lia|].
    replace (("{" ++ join "," (concat ps) ++ "}") ++ rest)
      with (String "{" (join "," (concat ps) ++ String "}" rest))
      by (simpl; rewrite str_app_assoc; reflexivity).
    rewrite pv_brace.
    destruct o as [|[k v] o'].
    + inversion HF; subst. reflexivity.
    + inversion HF as [|? p ? ps' [s [Hp _]] _]; subst.
      cbn [fst snd] in *.
      change (concat ([quote k ++ ":" ++ s] :: ps'))
        with ((quote k ++ ":" ++ s) :: concat ps').
      destruct (join_cons_prefix "," (quote k ++ ":" ++ s) (concat ps')) as [Y HY].
      rewrite HY, str_app_assoc, member_app, next_char_dq.
      change (Ascii.eqb dq "}") with false. cbv iota beta.
      rewrite <- member_app, <- str_app_assoc, <- HY.
      change ((quote k ++ ":" ++ s) :: concat ps')
        with (concat ([quote k ++ ":" ++ s] :: ps')).
      apply (parse_members_ok ((k, v) :: o') ([quote k ++ ":" ++ s] :: ps') HF
               ltac:(discriminate) [] n rest Hnorm); [|exact He].
      set (J := join "," (concat ([quote k ++ ":" ++ s] :: ps'))) in *.
      cbn [String.length String.append] in Hn. rewrite !str_length_app in Hn.
      cbn [String.length String.append] in Hn. lia.
Qed.

Lemma applyPagination_mode_format (d : value) (o : ResponseOptions.t)
  (m m' : ResponseMode) (f f' : OutputFormat) :
  applyPagination d (with_mode_format o m f) =
  applyPagination d (with_mode_format o m' f').
Proof. reflexivity. Qed.

Lemma JSON_parse_roundtrip (v : value) (s : string) :
  roundtrips v s -> JSON_parse s = Some v.
Proof.
  intros Hrt. unfold JSON_parse.
  pose proof (Hrt (S (String.length s)) EmptyString ltac:(lia) eq_refl) as Hp.
  rewrite str_app_nil in Hp. rewrite Hp. reflexivity.
Qed.

(** C7: for a response without a (truthy) error and any options, let
    [out] be the result of [formatResponse] under [mode='detailed'] and
    [format='json'].  If its data can be represented in JSON, the same call
    under [mode='compact'] gives a string as data, and [JSON.parse] of that
    string is exactly the data of [out].  The projection, limit and
    pagination options are the same in both calls. *)
Theorem formatResponse_compact_roundtrip
  (response : QuiverAPIResponse.t) (o : ResponseOptions.t)
  (out : OptimizedResponse.t)
  (Herr : str_truthy (QuiverAPIResponse.error response) = false)
  (Hout : formatResponse response (with_mode_format o detailed json) = Ok out)
  (Hser : serializable (OptimizedResponse.data out) = true) :
  exists s,
    rmap OptimizedResponse.data
      (formatResponse response (with_mode_format o compact json)) = Ok (VStr s)
    /\ JSON_parse s = Some (OptimizedResponse.data out).
Proof.
  destruct (stringify_roundtrip _ Hser) as [s [Hj [_ Hrt]]].
  exists s. split; [|exact (JSON_parse_roundtrip _ _ Hrt)].
  revert Hout Hj. unfold formatResponse. rewrite Herr. simpl.
  match goal with |- bind ?m _ = _ -> _ => destruct m as [pd| |] end;
    simpl; try discriminate.
  rewrite (applyPagination_mode_format pd o compact detailed json json).
  destruct (num_truthy (ResponseOptions.page o)
            || num_truthy (ResponseOptions.page_size o)
            || num_truthy (ResponseOptions.limit o)).
  - destruct (applyPagination pd (with_mode_format o detailed json))
      as [pdata pinfo].
    simpl. intros Hout. injection Hout as <-. simpl. intros Hj.
    unfold JSON_stringify. rewrite Hj. reflexivity.
  - simpl. intros Hout. injection Hout as <-. simpl. intros Hj.
    unfold JSON_stringify. rewrite Hj. reflexivity.
Qed.

Lemma formatResponse_compact_roundtrip_witness :
  exists s,
    rmap OptimizedResponse.data
      (formatResponse quote_response (with_mode_format page_one compact json))
    = Ok (VStr s) /\
    JSON_parse s = Some (VArr [VObj [("ticker", VStr "AAPL"); ("price", VNum 190)]]).
Proof.
  exact (formatResponse_compact_roundtrip quote_response page_one
           (OptimizedResponse.mk
              (VArr [VObj [("ticker", VStr "AAPL"); ("price", VNum 190)]])
              (Some (PaginationInfo.mk 1 1 2 2 true false)%Z)
              (Some (SummaryInfo.mk 2%Z ["all"] detailed json)))
           eq_refl eq_refl eq_refl).
Defined.

(** * Further properties of the code *)

(** ** Pagination windows *)

Lemma firstn_add {A} (a b : nat) (l : list A) :
  firstn (a + b) l = (firstn a l ++ firstn b (skipn a l))%list.
Proof.
  revert l; induction a as [|a IH]; intros [|x l]; simpl; auto.
  - now rewrite firstn_nil.
  - now rewrite IH.
Qed.

Lemma firstn_min_length {A} (m : nat) (x : list A) :
  firstn (Nat.min m (length x)) x = firstn m x.
Proof. rewrite <- firstn_firstn, firstn_all. reflexivity. Qed.

Lemma js_slice_window {A} (l : list A) (s k : Z) :
  (0 <= s)%Z -> (0 <= k)%Z ->
  js_slice l s (s + k) = firstn (Z.to_nat k) (skipn (Z.to_nat s) l).
Proof.
  intros Hs Hk. unfold js_slice.
  destruct (Z.ltb_spec s 0); [lia|]. destruct (Z.ltb_spec (s + k) 0); [lia|].
  destruct (Z.le_gt_cases (Z.of_nat (length l)) s) as [Hge|Hlt].
  - rewrite !(Z.min_r _ (Z.of_nat (length l))) by lia.
    rewrite skipn_all2 by lia.
    rewrite skipn_all2 by lia. now rewrite !firstn_nil.
  - rewrite (Z.min_l s) by lia.
    rewrite <- (firstn_min_length (Z.to_nat k)), length_skipn.
    f_equal. lia.
Qed.

Lemma concat_windows {A} (l : list A) (k m : nat) :
  concat (map (fun i => firstn k (skipn (i * k) l)) (seq 0 m)) = firstn (m * k) l.
Proof.
  induction m as [|m IH]; [reflexivity|].
  rewrite seq_S, map_app, concat_app, IH. simpl.
  rewrite app_nil_r, <- firstn_add. f_equal. lia.
Qed.

Lemma page_items_window (l : list value) (o : ResponseOptions.t) (k p : Z) :
  ResponseOptions.page_size o = Some k -> (0 < k)%Z -> (1 <= p)%Z ->
  page_items l (with_page o p) =
  firstn (Z.to_nat k)
    (skipn (Z.to_nat ((p - 1) * k)) (limit_stage l (ResponseOptions.limit o))).
Proof.
  intros Hk Hpos Hp. unfold page_items, applyPagination, with_page. simpl.
  rewrite Hk. unfold num_or.
  destruct (Z.eqb_spec p 0); [lia|]. destruct (Z.eqb_spec k 0); [lia|].
  apply js_slice_window; nia.
Qed.

Lemma ceil_div_nonneg (a b : Z) : (0 <= a)%Z -> (0 < b)%Z -> (0 <= ceil_div a b)%Z.
Proof. intros Ha Hb. pose proof (ceil_div_spec a b Hb). nia. Qed.

Lemma applyPagination_total_pages (l : list value) (o : ResponseOptions.t) (k : Z) :
  ResponseOptions.page_size o = Some k -> (0 < k)%Z ->
  PaginationInfo.total_pages (snd (applyPagination (VArr l) o)) =
  ceil_div (Z.of_nat (length (limit_stage l (ResponseOptions.limit o)))) k.
Proof.
  intros Hk Hpos. simpl. rewrite Hk. unfold num_or.
  destruct (Z.eqb_spec k 0); [lia|reflexivity].
Qed.

(** X1: with a positive [page_size], the pages [1 .. total_pages] that
    [applyPagination] reports are consecutive windows of the limited data:
    concatenated in order they give exactly the limited data, with no item
    skipped or repeated. *)
Theorem applyPagination_pages_partition (l : list value) (o : ResponseOptions.t) (k : Z) :
  ResponseOptions.page_size o = Some k -> (0 < k)%Z ->
  concat (map (fun p => page_items l (with_page o p))
    (page_numbers (PaginationInfo.total_pages (snd (applyPagination (VArr l) o)))))
  = limit_stage l (ResponseOptions.limit o).
Proof.
  intros Hk Hpos. rewrite (applyPagination_total_pages l o k Hk Hpos).
  set (L := limit_stage l (ResponseOptions.limit o)).
  set (T := ceil_div (Z.of_nat (length L)) k).
  pose proof (ceil_div_spec (Z.of_nat (length L)) k Hpos) as Hc. fold T in Hc.
  assert (HT : (0 <= T)%Z) by (apply ceil_div_nonneg; lia).
  unfold page_numbers. rewrite map_map, <- seq_shift, map_map.
  rewrite (map_ext (fun i => page_items l (with_page o (Z.of_nat (S i))))
                   (fun i => firstn (Z.to_nat k) (skipn (i * Z.to_nat k) L))).
  - rewrite concat_windows. apply firstn_all2.
    rewrite <- Z2Nat.inj_mul by lia. lia.
  - intros i. rewrite (page_items_window l o k (Z.of_nat (S i)) Hk Hpos) by lia. fold L.
    replace ((Z.of_nat (S i) - 1) * k)%Z with (Z.of_nat i * k)%Z by lia.
    rewrite Z2Nat.inj_mul, Nat2Z.id by lia. reflexivity.
Qed.

Lemma with_page_total_pages (l : list value) (o : ResponseOptions.t) (p : Z) :
  PaginationInfo.total_pages (snd (applyPagination (VArr l) (with_page o p))) =
  PaginationInfo.total_pages (snd (applyPagination (VArr l) o)).
Proof. reflexivity. Qed.

Lemma page_items_nonempty (l : list value) (o : ResponseOptions.t) (k p : Z) :
  ResponseOptions.page_size o = Some k -> (0 < k)%Z -> (1 <= p)%Z ->
  page_items l (with_page o p) <> [] <->
  (p <= ceil_div (Z.of_nat (length (limit_stage l (ResponseOptions.limit o)))) k)%Z.
Proof.
  intros Hk Hpos Hp. rewrite (page_items_window l o k p Hk Hpos Hp).
  set (L := limit_stage l (ResponseOptions.limit o)).
  set (T := ceil_div (Z.of_nat (length L)) k).
  pose proof (ceil_div_spec (Z.of_nat (length L)) k Hpos) as Hc. fold T in Hc.
  assert (Hiff : ((p - 1) * k < Z.of_nat (length L) <-> p <= T)%Z) by (split; nia).
  rewrite <- length_zero_iff_nil, length_firstn, length_skipn.
  rewrite <- Hiff. assert (0 <= (p - 1) * k)%Z by nia. lia.
Qed.

(** X2: with a positive [page_size] and a page number [p >= 1], the page
    [applyPagination] returns is non-empty exactly when [p] is at most the
    [total_pages] it reports. *)
Theorem applyPagination_page_nonempty_iff (l : list value) (o : ResponseOptions.t) (k p : Z) :
  ResponseOptions.page_size o = Some k -> (0 < k)%Z -> (1 <= p)%Z ->
  page_items l (with_page o p) <> [] <->
  (p <= PaginationInfo.total_pages (snd (applyPagination (VArr l) (with_page o p))))%Z.
Proof.
  intros Hk Hpos Hp.
  rewrite with_page_total_pages, (applyPagination_total_pages l o k Hk Hpos).
  exact (page_items_nonempty l o k p Hk Hpos Hp).
Qed.

(** X3: with a positive [page_size] and a page number [p >= 1],
    [has_next] is true exactly when page [p + 1] holds at least one item. *)
Theorem applyPagination_has_next_iff (l : list value) (o : ResponseOptions.t) (k p : Z) :
  ResponseOptions.page_size o = Some k -> (0 < k)%Z -> (1 <= p)%Z ->
  PaginationInfo.has_next (snd (applyPagination (VArr l) (with_page o p))) = true <->
  page_items l (with_page o (p + 1)) <> [].
Proof.
  intros Hk Hpos Hp.
  rewrite (page_items_nonempty l o k (p + 1) Hk Hpos) by lia.
  cbn [snd applyPagination PaginationInfo.has_next with_page ResponseOptions.page
       ResponseOptions.page_size ResponseOptions.limit].
  rewrite Hk. unfold num_or.
  destruct (Z.eqb_spec p 0); [lia|]. destruct (Z.eqb_spec k 0); [lia|].
  rewrite Z.ltb_lt. lia.
Qed.

(** ** tools.ts *)

Lemma js_slice_prefix {A} (l : list A) (n : Z) :
  (0 <= n)%Z -> js_slice l 0 n = firstn (Z.to_nat n) l.
Proof. intros Hn. exact (js_slice_window l 0 n ltac:(lia) Hn). Qed.

Lemma length_js_slice_le {A} (l : list A) (a b : Z) :
  length (js_slice l a b) <= length l.
Proof.
  unfold js_slice. rewrite length_firstn, length_skipn. lia.
Qed.

Lemma length_limit_stage (l : list value) (n : Z) :
  (0 < n)%Z -> length (limit_stage l (Some n)) <= Z.to_nat n.
Proof.
  intros Hn. unfold limit_stage.
  destruct (Z.eqb_spec n 0); [lia|]. destruct (Z.gtb_spec n 0); [|lia]. simpl.
  rewrite js_slice_prefix, length_firstn by lia. lia.
Qed.

(** X4: a tool handler that builds its options the standard way (mode,
    format, fields, explicitFields, page, page_size and [limit ||
    DEFAULT_LIMITS.x]) and is called without arguments returns, for an
    array without error, the first [min(50, default limit)] items. *)
Theorem standard_tool_default_window (L : Z) (l : list value)
  (err : option string) (st : Z) :
  str_truthy err = false -> (0 < L)%Z ->
  rmap OptimizedResponse.data
    (formatResponse (QuiverAPIResponse.mk (VArr l) err st)
       (standard_options no_tool_args L))
  = Ok (VArr (firstn (Nat.min 50 (Z.to_nat L)) l)).
Proof.
  intros Herr HL. unfold formatResponse. cbn -[js_slice limit_stage]. rewrite Herr.
  unfold num_or. destruct (Z.eqb_spec L 0); [lia|]. cbn -[js_slice limit_stage].
  unfold limit_stage. destruct (Z.eqb_spec L 0); [lia|].
  destruct (Z.gtb_spec L 0); [|lia]. cbn -[js_slice].
  rewrite (js_slice_prefix l) by lia. rewrite (js_slice_prefix (firstn _ l)) by lia.
  rewrite firstn_firstn. reflexivity.
Qed.

Lemma applyPagination_data_bound (l : list value) (o : ResponseOptions.t) (n : Z) :
  ResponseOptions.limit o = Some n -> (0 < n)%Z ->
  exists d, fst (applyPagination (VArr l) o) = VArr d /\ length d <= Z.to_nat n.
Proof.
  intros Hl Hn. eexists. split; [reflexivity|]. rewrite Hl.
  etransitivity; [apply length_js_slice_le|]. apply length_limit_stage; exact Hn.
Qed.

(** X5: for such a handler in mode detailed and format json, whatever the
    page, page_size and fields arguments, the returned array never holds
    more items than the effective limit [args.limit || default], when that
    limit is positive. *)
Theorem standard_tool_limit_cap (args : ToolArgs.t) (L : Z)
  (response : QuiverAPIResponse.t) (l : list value) (out : OptimizedResponse.t) :
  str_truthy (QuiverAPIResponse.error response) = false ->
  QuiverAPIResponse.data response = VArr l ->
  opt_or (ToolArgs.mode args) detailed = detailed ->
  opt_or (ToolArgs.format args) json = json ->
  (0 < num_or (ToolArgs.limit args) L)%Z ->
  formatResponse response (standard_options args L) = Ok out ->
  exists d, OptimizedResponse.data out = VArr d /\
            length d <= Z.to_nat (num_or (ToolArgs.limit args) L).
Proof.
  intros Herr Hd Hm Hf Hn. unfold formatResponse. rewrite Herr, Hd.
  set (o := standard_options args L).
  assert (Hlim : ResponseOptions.limit o = Some (num_or (ToolArgs.limit args) L))
    by reflexivity.
  assert (Htr : num_truthy (ResponseOptions.limit o) = true)
    by (rewrite Hlim; simpl; destruct (Z.eqb_spec (num_or (ToolArgs.limit args) L) 0);
        [lia|reflexivity]).
  cbv zeta. rewrite Htr, !orb_true_r.
  change (opt_or (ResponseOptions.mode o) detailed) with
    (opt_or (Some (opt_or (ToolArgs.mode args) detailed)) detailed).
  change (opt_or (ResponseOptions.format o) json) with
    (opt_or (Some (opt_or (ToolArgs.format args) json)) json).
  cbn [opt_or]. rewrite Hm, Hf.
  destruct (match ResponseOptions.fields o, VArr l, ResponseOptions.explicitFields o with
            | Some fs, VArr l, Some true => l' <- selectFields l fs ;; Ok (VArr l')
            | _, _, _ => Ok (VArr l)
            end) as [pd| |] eqn:Ep; cbn [bind]; try discriminate.
  assert (Harr : exists l', pd = VArr l').
  { destruct (ResponseOptions.fields o) as [fs|]; [|injection Ep as <-; eauto].
    destruct (ResponseOptions.explicitFields o) as [[|]|];
      try (injection Ep as <-; eauto).
    destruct (selectFields l fs) as [l'| |]; cbn [bind] in Ep; try discriminate.
    injection Ep as <-; eauto. }
  destruct Harr as [l' ->].
  destruct (applyPagination_data_bound l' o _ Hlim Hn) as [d [Ed Hlen]].
  destruct (applyPagination (VArr l') o) as [pdata pinfo]. cbn [fst] in Ed. subst pdata.
  cbn. intros H. injection H as <-. cbn. eauto.
Qed.

Lemma formatResponse_default_page (response : QuiverAPIResponse.t)
  (o : ResponseOptions.t) (l : list value) (n : Z) (out : OptimizedResponse.t) :
  str_truthy (QuiverAPIResponse.error response) = false ->
  QuiverAPIResponse.data response = VArr l ->
  ResponseOptions.page o = None -> ResponseOptions.page_size o = None ->
  ResponseOptions.limit o = Some n -> n <> 0%Z ->
  formatResponse response o = Ok out ->
  exists p, OptimizedResponse.pagination out = Some p /\
    PaginationInfo.current_page p = 1%Z /\ PaginationInfo.page_size p = 50%Z /\
    PaginationInfo.has_previous p = false.
Proof.
  intros Herr Hd Hp Hps Hl Hn. unfold formatResponse. rewrite Herr, Hd.
  cbv zeta. rewrite Hp, Hps, Hl. cbn [num_truthy orb].
  destruct (Z.eqb_spec n 0) as [|_]; [contradiction|]. cbn [negb].
  destruct (match ResponseOptions.fields o, VArr l, ResponseOptions.explicitFields o with
            | Some fs, VArr l, Some true => l' <- selectFields l fs ;; Ok (VArr l')
            | _, _, _ => Ok (VArr l)
            end) as [pd| |] eqn:Ep; cbn [bind]; try discriminate.
  assert (Harr : exists l', pd = VArr l').
  { destruct (ResponseOptions.fields o) as [fs|]; [|injection Ep as <-; eauto].
    destruct (ResponseOptions.explicitFields o) as [[|]|];
      try (injection Ep as <-; eauto).
    destruct (selectFields l fs) as [l'| |]; cbn [bind] in Ep; try discriminate.
    injection Ep as <-; eauto. }
  destruct Harr as [l' ->]. unfold applyPagination. rewrite Hp, Hps.
  cbv zeta. destruct (formatOutput _ _ _); cbn [bind]; try discriminate.
  intros H. injection H as <-. eexists. split; [reflexivity|]. cbn.
  repeat split. 
Qed.

(** X6: [get_recent_lobbying] and [get_bulk_congress_trading] pass page
    and page_size to the API only: for an array without error, the
    pagination they report is always page 1 of size 50 with no previous
    page, whatever the arguments. *)
Theorem lobbying_and_bulk_report_first_page (args : ToolArgs.t)
  (response : QuiverAPIResponse.t) (l : list value) :
  str_truthy (QuiverAPIResponse.error response) = false ->
  QuiverAPIResponse.data response = VArr l ->
  (forall out, formatResponse response (lobbying_options args) = Ok out ->
   exists p, OptimizedResponse.pagination out = Some p /\
     PaginationInfo.current_page p = 1%Z /\ PaginationInfo.page_size p = 50%Z /\
     PaginationInfo.has_previous p = false) /\
  (forall out, formatResponse response (bulk_congress_trading_options args) = Ok out ->
   exists p, OptimizedResponse.pagination out = Some p /\
     PaginationInfo.current_page p = 1%Z /\ PaginationInfo.page_size p = 50%Z /\
     PaginationInfo.has_previous p = false).
Proof.
  intros Herr Hd. split; intros out.
  - apply (formatResponse_default_page response (lobbying_options args) l
             (num_or (ToolArgs.limit args) DEFAULT_LIMITS.lobbying) out Herr Hd
             eq_refl eq_refl eq_refl).
    apply num_or_nonzero. discriminate.
  - apply (formatResponse_default_page response (bulk_congress_trading_options args) l
             (num_or (ToolArgs.limit args) DEFAULT_LIMITS.bulk_data) out Herr Hd
             eq_refl eq_refl eq_refl).
    apply num_or_nonzero. discriminate.
Qed.

Lemma applyPagination_options (d : value) (o o' : ResponseOptions.t) :
  ResponseOptions.page o = ResponseOptions.page o' ->
  ResponseOptions.page_size o = ResponseOptions.page_size o' ->
  ResponseOptions.limit o = ResponseOptions.limit o' ->
  applyPagination d o = applyPagination d o'.
Proof.
  intros Hp Hps Hl. destruct d; try reflexivity. unfold applyPagination.
  rewrite Hp, Hps, Hl. reflexivity.
Qed.

Lemma formatResponse_unprojected (response : QuiverAPIResponse.t)
  (o : ResponseOptions.t) :
  ResponseOptions.explicitFields o = None ->
  data_and_pagination (formatResponse response o) =
  if str_truthy (QuiverAPIResponse.error response) then
    Ok (VObj [("error", VStr (opt_or (QuiverAPIResponse.error response) EmptyString));
              ("status", VNum (QuiverAPIResponse.status response))], None)
  else
    let mode := opt_or (ResponseOptions.mode o) detailed in
    let format := opt_or (ResponseOptions.format o) json in
    if num_truthy (ResponseOptions.page o)
       || num_truthy (ResponseOptions.page_size o)
       || num_truthy (ResponseOptions.limit o)
    then
      let '(pdata, pinfo) := applyPagination (QuiverAPIResponse.data response) o in
      rmap (fun out => (out, Some pinfo)) (formatOutput pdata format mode)
    else rmap (fun out => (out, None))
           (formatOutput (QuiverAPIResponse.data response) format mode).
Proof.
  intros He. unfold data_and_pagination, formatResponse.
  destruct (str_truthy (QuiverAPIResponse.error response)); [reflexivity|].
  assert (Hp : match ResponseOptions.fields o, QuiverAPIResponse.data response,
                     ResponseOptions.explicitFields o with
               | Some fs, VArr l, Some true => l' <- selectFields l fs ;; Ok (VArr l')
               | _, _, _ => Ok (QuiverAPIResponse.data response)
               end = Ok (QuiverAPIResponse.data response)).
  { rewrite He. destruct (ResponseOptions.fields o), (QuiverAPIResponse.data response);
      reflexivity. }
  rewrite Hp. cbn [bind]. cbv zeta.
  destruct (_ || _ || _).
  - destruct (applyPagination _ _). destruct (formatOutput _ _ _); reflexivity.
  - destruct (formatOutput _ _ _); reflexivity.
Qed.

(** X7: [get_ticker_data] and [get_recent_bill_summaries] do not set
    [explicitFields], so their fields argument changes neither the data nor
    the pagination of the result (only [summary.fields_included]). *)
Theorem ticker_and_bill_fields_only_in_summary (args : ToolArgs.t)
  (response : QuiverAPIResponse.t) :
  data_and_pagination (formatResponse response (ticker_data_options args)) =
  data_and_pagination
    (formatResponse response (ticker_data_options (without_fields args))) /\
  data_and_pagination (formatResponse response (bill_summaries_options args)) =
  data_and_pagination
    (formatResponse response (bill_summaries_options (without_fields args))).
Proof.
  split; rewrite !formatResponse_unprojected by reflexivity.
  - rewrite (applyPagination_options _ (ticker_data_options (without_fields args))
               (ticker_data_options args)) by reflexivity.
    reflexivity.
  - rewrite (applyPagination_options _ (bill_summaries_options (without_fields args))
               (bill_summaries_options args)) by reflexivity.
    reflexivity.
Qed.

(** ** index.ts: the CallTool handler *)

Lemma call_tool_reply_formatted (out : OptimizedResponse.t) :
  call_tool_reply (optimized_value out) =
  match OptimizedResponse.data out with
  | VStr s => Ok (CallToolReply.mk (VStr s) false)
  | d => t <- JSON_stringify d ;; Ok (CallToolReply.mk t false)
  end.
Proof.
  destruct out as [d p s].
  destruct p, s; unfold call_tool_reply, optimized_value; cbn;
    destruct d; reflexivity.
Qed.

Lemma envelope_serializable (e : string) (st : Z) :
  serializable (VObj [("error", VStr e); ("status", VNum st)]) = true.
Proof. reflexivity. Qed.

(** X8: when the API response carries a non-empty error, the result of
    [formatResponse] reaches the CallTool handler without a top-level
    [error], so the reply is not flagged [isError]: its text is JSON that
    parses back to the object with the error and the status. *)
Theorem error_envelope_reply_not_flagged (response : QuiverAPIResponse.t)
  (o : ResponseOptions.t) (out : OptimizedResponse.t) :
  str_truthy (QuiverAPIResponse.error response) = true ->
  formatResponse response o = Ok out ->
  exists s,
    call_tool_reply (optimized_value out) = Ok (CallToolReply.mk (VStr s) false) /\
    JSON_parse s =
      Some (VObj [("error", VStr (opt_or (QuiverAPIResponse.error response) EmptyString));
                  ("status", VNum (QuiverAPIResponse.status response))]).
Proof.
  intros Herr Hout. unfold formatResponse in Hout. rewrite Herr in Hout.
  injection Hout as <-.
  destruct (stringify_roundtrip _ (envelope_serializable
              (opt_or (QuiverAPIResponse.error response) EmptyString)
              (QuiverAPIResponse.status response))) as [s [Hj [_ Hrt]]].
  exists s. split; [|exact (JSON_parse_roundtrip _ _ Hrt)].
  rewrite call_tool_reply_formatted. cbn [OptimizedResponse.data].
  unfold JSON_stringify. rewrite Hj. reflexivity.
Qed.

Lemma formatResponse_compact_from_detailed (response : QuiverAPIResponse.t)
  (o : ResponseOptions.t) (out : OptimizedResponse.t) :
  str_truthy (QuiverAPIResponse.error response) = false ->
  formatResponse response (with_mode_format o detailed json) = Ok out ->
  exists si,
    formatResponse response (with_mode_format o compact json) =
    rmap (fun d => OptimizedResponse.mk d (OptimizedResponse.pagination out) si)
      (JSON_stringify (OptimizedResponse.data out)).
Proof.
  intros Herr. unfold formatResponse. rewrite Herr. cbn -[applyPagination].
  match goal with |- bind ?m _ = _ -> _ => destruct m as [pd| |] end;
    cbn [bind]; try discriminate.
  rewrite (applyPagination_mode_format pd o compact detailed json json).
  destruct (num_truthy (ResponseOptions.page o)
            || num_truthy (ResponseOptions.page_size o)
            || num_truthy (ResponseOptions.limit o)).
  - destruct (applyPagination pd (with_mode_format o detailed json)) as [pdata pinfo].
    cbn. intros Hout. injection Hout as <-. cbn.
    eexists. destruct (JSON_stringify pdata); reflexivity.
  - cbn. intros Hout. injection Hout as <-. cbn.
    eexists. destruct (JSON_stringify pd); reflexivity.
Qed.

Lemma JSON_stringify_shape (v t : value) :
  JSON_stringify v = Ok t -> t = VUndef \/ exists s, t = VStr s.
Proof.
  unfold JSON_stringify. destruct (json_stringify v) as [[s|]| |]; cbn;
    intros H; try discriminate; injection H as <-; eauto.
Qed.

(** X9: in format json, for a response without error whose detailed data
    is not a string, the CallTool reply built from the compact result is
    the same as the one built from the detailed result. *)
Theorem compact_and_detailed_same_reply (response : QuiverAPIResponse.t)
  (o : ResponseOptions.t) (out : OptimizedResponse.t) :
  str_truthy (QuiverAPIResponse.error response) = false ->
  formatResponse response (with_mode_format o detailed json) = Ok out ->
  (forall s, OptimizedResponse.data out <> VStr s) ->
  bind (formatResponse response (with_mode_format o compact json))
    (fun out' => call_tool_reply (optimized_value out'))
  = call_tool_reply (optimized_value out).
Proof.
  intros Herr Hout Hns.
  destruct (formatResponse_compact_from_detailed response o out Herr Hout) as [si ->].
  rewrite call_tool_reply_formatted.
  assert (Hr : match OptimizedResponse.data out with
               | VStr s => Ok (CallToolReply.mk (VStr s) false)
               | d => t <- JSON_stringify d ;; Ok (CallToolReply.mk t false)
               end = (t <- JSON_stringify (OptimizedResponse.data out) ;;
                      Ok (CallToolReply.mk t false))).
  { destruct (OptimizedResponse.data out); try reflexivity. exfalso. eapply Hns; reflexivity. }
  rewrite Hr.
  destruct (JSON_stringify (OptimizedResponse.data out)) as [t| |] eqn:Ej;
    cbn [rmap bind]; try reflexivity.
  rewrite call_tool_reply_formatted. cbn [OptimizedResponse.data].
  destruct (JSON_stringify_shape _ _ Ej) as [-> | [s ->]]; reflexivity.
Qed.

(** ** Reading CSV text back *)

Lemma has_char_cons (c d : ascii) (s : string) :
  has_char c (String d s) = Ascii.eqb c d || has_char c s.
Proof. reflexivity. Qed.

Lemma csv_scan_plain (sv r : string) (cur : string) row rows :
  has_char "," sv = false -> has_char nl sv = false ->
  csv_scan (sv ++ r) Unquoted cur row rows = csv_scan r Unquoted (cur ++ sv) row rows.
Proof.
  revert cur. induction sv as [|c sv IH]; intros cur Hc Hn.
  - cbn. rewrite str_app_nil. reflexivity.
  - rewrite has_char_cons in Hc, Hn. apply orb_false_iff in Hc, Hn.
    destruct Hc as [Hc1 Hc2], Hn as [Hn1 Hn2].
    cbn [String.append csv_scan].
    rewrite Ascii.eqb_sym, Hc1. rewrite Ascii.eqb_sym, Hn1.
    rewrite IH by assumption. rewrite str_app_assoc. reflexivity.
Qed.

Lemma csv_scan_quoted (sv r : string) (cur : string) row rows :
  csv_scan (double_quotes sv ++ str1 dq ++ r) Quoted cur row rows =
  csv_scan r QuoteSeen (cur ++ sv) row rows.
Proof.
  revert cur. induction sv as [|c sv IH]; intros cur.
  - cbn. rewrite str_app_nil. reflexivity.
  - cbn [double_quotes]. destruct (Ascii.eqb_spec c dq) as [->|Hne].
    + cbn [String.append csv_scan]. rewrite Ascii.eqb_refl.
      assert (Hco : Ascii.eqb dq "," = false) by reflexivity.
      assert (Hnl : Ascii.eqb dq nl = false) by reflexivity.
      rewrite Hco, Hnl, IH, str_app_assoc. reflexivity.
    + cbn [String.append csv_scan].
      destruct (Ascii.eqb_spec c dq); [contradiction|].
      rewrite IH, str_app_assoc. reflexivity.
Qed.

Lemma csv_scan_comma (r : string) (st : csv_state) cur row rows :
  st <> Quoted ->
  csv_scan (String "," r) st cur row rows =
  csv_scan r FieldStart EmptyString (row ++ [cur])%list rows.
Proof. intros Hst. destruct st; [reflexivity|reflexivity|contradiction|reflexivity]. Qed.

Lemma csv_scan_newline (r : string) (st : csv_state) cur row rows :
  st <> Quoted ->
  csv_scan (String nl r) st cur row rows =
  csv_scan r FieldStart EmptyString [] (rows ++ [row ++ [cur]])%list.
Proof. intros Hst. destruct st; [reflexivity|reflexivity|contradiction|reflexivity]. Qed.

Lemma csv_scan_end (st : csv_state) cur row rows :
  st <> Quoted ->
  csv_scan EmptyString st cur row rows = Some (rows ++ [row ++ [cur]])%list.
Proof. intros Hst. destruct st; [reflexivity|reflexivity|contradiction|reflexivity]. Qed.

Lemma csv_scan_field (sv r : string) row rows :
  has_char nl sv = false ->
  exists st, st <> Quoted /\
    csv_scan (csv_field sv ++ r) FieldStart EmptyString row rows =
    csv_scan r st sv row rows.
Proof.
  intros Hn. unfold csv_field.
  destruct (has_char "," sv || has_char dq sv) eqn:Hq.
  - exists QuoteSeen. split; [discriminate|].
    cbn [String.append csv_scan].
    change (Ascii.eqb dq ",") with false. change (Ascii.eqb dq nl) with false.
    rewrite Ascii.eqb_refl, str_app_assoc, csv_scan_quoted. reflexivity.
  - apply orb_false_iff in Hq. destruct Hq as [Hc Hd].
    destruct sv as [|c sv].
    + exists FieldStart. split; [discriminate|reflexivity].
    + exists Unquoted. split; [discriminate|].
      rewrite has_char_cons in Hc, Hd, Hn. apply orb_false_iff in Hc, Hd, Hn.
      destruct Hc as [Hc1 Hc2], Hd as [Hd1 Hd2], Hn as [Hn1 Hn2].
      cbn [String.append csv_scan].
      rewrite Ascii.eqb_sym, Hc1. rewrite Ascii.eqb_sym, Hn1.
      rewrite Ascii.eqb_sym, Hd1.
      rewrite csv_scan_plain by assumption. reflexivity.
Qed.

Lemma csv_scan_record (cells : list string) (r : string) row rows
  (F : list string -> option (list (list string))) :
  cells <> [] -> Forall (fun c => has_char nl c = false) cells ->
  (forall st cur row', st <> Quoted -> csv_scan r st cur row' rows = F (row' ++ [cur])%list) ->
  csv_scan (join "," (map csv_field cells) ++ r) FieldStart EmptyString row rows =
  F (row ++ cells)%list.
Proof.
  intros Hne Hall HF. revert row.
  induction cells as [|c cs IH]; [contradiction|]. intros row.
  inversion Hall as [|? ? Hc Hcs]; subst.
  destruct cs as [|c2 cs].
  - cbn [map join].
    destruct (csv_scan_field c r row rows Hc) as [st [Hst ->]].
    apply HF, Hst.
  - change (join "," (map csv_field (c :: c2 :: cs))) with
      (csv_field c ++ "," ++ join "," (map csv_field (c2 :: cs))).
    rewrite str_app_assoc, str_app_assoc.
    destruct (csv_scan_field c ("," ++ join "," (map csv_field (c2 :: cs)) ++ r)
                row rows Hc) as [st [Hst ->]].
    cbn [String.append]. rewrite csv_scan_comma by exact Hst.
    rewrite IH by (discriminate || exact Hcs).
    rewrite <- app_assoc. reflexivity.
Qed.

Lemma csv_scan_document (records : list (list string)) rows :
  records <> [] ->
  Forall (fun cs => cs <> [] /\ Forall (fun c => has_char nl c = false) cs) records ->
  csv_scan (join (str1 nl) (map (fun cs => join "," (map csv_field cs)) records))
    FieldStart EmptyString [] rows = Some (rows ++ records)%list.
Proof.
  revert rows. induction records as [|cs recs IH]; intros rows Hne Hall; [contradiction|].
  inversion Hall as [|? ? [Hcs Hc] Hrecs]; subst.
  destruct recs as [|cs2 recs].
  - cbn [map join].
    rewrite <- (str_app_nil (join "," (map csv_field cs))).
    rewrite (csv_scan_record cs EmptyString [] rows (fun row' => Some (rows ++ [row'])%list))
      by (assumption || (intros; apply csv_scan_end; assumption)).
    reflexivity.
  - change (join (str1 nl) (map (fun cs => join "," (map csv_field cs)) (cs :: cs2 :: recs)))
      with (join "," (map csv_field cs) ++ str1 nl ++
            join (str1 nl) (map (fun cs => join "," (map csv_field cs)) (cs2 :: recs))).
    rewrite (csv_scan_record cs _ [] rows
               (fun row' => csv_scan
                  (join (str1 nl) (map (fun cs => join "," (map csv_field cs)) (cs2 :: recs)))
                  FieldStart EmptyString [] (rows ++ [row'])%list)).
    + rewrite IH by (discriminate || assumption). rewrite <- app_assoc. reflexivity.
    + exact Hcs.
    + exact Hc.
    + intros st cur row' Hst. cbn [str1 String.append].
      rewrite csv_scan_newline by exact Hst. reflexivity.
Qed.

Lemma mapM_ext {A B} (f g : A -> result B) (l : list A) :
  (forall x, f x = g x) -> mapM f l = mapM g l.
Proof. intros H. induction l as [|x l IH]; cbn; [reflexivity|]. rewrite H, IH. reflexivity. Qed.

Lemma mapM_bind_ok {A B C} (f : A -> result B) (g : B -> C) (l : list A) :
  mapM (fun x => y <- f x ;; Ok (g y)) l = rmap (map g) (mapM f l).
Proof.
  induction l as [|x l IH]; cbn; [reflexivity|].
  destruct (f x); cbn; try reflexivity. rewrite IH.
  destruct (mapM f l); reflexivity.
Qed.

Lemma formatAsCSV_objects (first : value) (rest : list value) :
  is_object first = true ->
  formatAsCSV (VArr (first :: rest)) =
  rmap (fun rows => lines (join "," (object_keys first)
                           :: map (fun cs => join "," (map csv_field cs)) rows))
    (mapM (fun item => cell_texts item (object_keys first)) (first :: rest)).
Proof.
  intros Hobj. unfold formatAsCSV. rewrite Hobj. cbn [negb].
  set (H := object_keys first).
  rewrite (mapM_ext _ (fun item => y <- cell_texts item H ;;
                                   Ok (join "," (map csv_field y)))).
  - rewrite mapM_bind_ok.
    destruct (mapM (fun item => cell_texts item H) (first :: rest)); reflexivity.
  - intros item. unfold cell_texts.
    rewrite (mapM_ext _ (fun header =>
               y <- (x <- js_get item header ;;
                     to_js_string (if truthy x then x else VStr EmptyString)) ;;
               Ok (csv_field y))).
    + rewrite mapM_bind_ok. destruct (mapM _ H); reflexivity.
    + intros header. destruct (js_get item header); cbn; try reflexivity.
Qed.

Lemma mapM_length {A B} (f : A -> result B) (l : list A) (l' : list B) :
  mapM f l = Ok l' -> length l' = length l.
Proof.
  revert l'. induction l as [|x l IH]; cbn; intros l' H.
  - injection H as <-. reflexivity.
  - destruct (f x); cbn in H; try discriminate.
    destruct (mapM f l) eqn:E; cbn in H; try discriminate.
    injection H as <-. cbn. f_equal. apply IH. reflexivity.
Qed.

Lemma mapM_Forall {A B} (f : A -> result B) (P : B -> Prop) (l : list A) (l' : list B) :
  mapM f l = Ok l' -> (forall x y, f x = Ok y -> P y) -> Forall P l'.
Proof.
  revert l'. induction l as [|x l IH]; cbn; intros l' H HP.
  - injection H as <-. constructor.
  - destruct (f x) eqn:Ef; cbn in H; try discriminate.
    destruct (mapM f l) eqn:E; cbn in H; try discriminate.
    injection H as <-. constructor; [eapply HP; exact Ef|]. apply IH; auto.
Qed.

(** X10: for an array whose first item is an object with at least one key,
    when no header contains a comma, a double quote or a line feed and no
    cell text contains a line feed, an RFC 4180 reader reads the output of
    [formatAsCSV] back as the header row followed by the cell texts of
    every item. *)
Theorem formatAsCSV_reads_back (first : value) (rest : list value)
  (rows : list (list string)) :
  is_object first = true ->
  object_keys first <> [] ->
  Forall (fun h => has_char "," h = false /\ has_char dq h = false /\
                   has_char nl h = false) (object_keys first) ->
  mapM (fun item => cell_texts item (object_keys first)) (first :: rest) = Ok rows ->
  Forall (Forall (fun c => has_char nl c = false)) rows ->
  exists txt, formatAsCSV (VArr (first :: rest)) = Ok txt /\
              csv_parse txt = Some (object_keys first :: rows).
Proof.
  intros Hobj Hne Hh Hrows Hc.
  rewrite formatAsCSV_objects by exact Hobj. rewrite Hrows.
  eexists. split; [reflexivity|].
  set (H := object_keys first) in *.
  assert (Hhdr : join "," H = join "," (map csv_field H)).
  { f_equal. clear - Hh. induction Hh as [|h hs [Hc [Hd _]] _ IH]; [reflexivity|].
    cbn [map]. rewrite <- IH. unfold csv_field. rewrite Hc, Hd. reflexivity. }
  unfold lines, csv_parse. rewrite Hhdr.
  change (join "," (map csv_field H)
          :: map (fun cs => join "," (map csv_field cs)) rows)
    with (map (fun cs => join "," (map csv_field cs)) (H :: rows)).
  apply (csv_scan_document (H :: rows) []); [discriminate|].
  constructor.
  - split; [exact Hne|]. eapply Forall_impl; [|exact Hh]. cbn. tauto.
  - assert (Hlen : Forall (fun cs => length cs = length H) rows).
    { eapply mapM_Forall; [exact Hrows|]. intros x y Hy. unfold cell_texts in Hy.
      exact (mapM_length _ _ _ Hy). }
    clear Hrows. induction rows as [|cs rs IH]; [constructor|].
    inversion Hc; inversion Hlen; subst. constructor; [|auto].
    split; [|assumption]. intros ->. apply Hne.
    destruct H; [reflexivity|discriminate].
Qed.

(** ** Sections of ticker data *)

Lemma all_section_fields_plain :
  forallb (fun f => negb (is_index_key f) && negb (String.eqb f "__proto__"))
    all_section_fields = true.
Proof. vm_compute. reflexivity. Qed.

Lemma mem_app (k : string) (l1 l2 : list string) :
  mem k (l1 ++ l2) = mem k l1 || mem k l2.
Proof. unfold mem. apply existsb_app. Qed.

Lemma mem_filter_notin (k : string) (acc fs : list string) :
  mem k (filter (fun f => negb (mem f acc)) fs) = mem k fs && negb (mem k acc).
Proof.
  induction fs as [|f fs IH]; [reflexivity|].
  change (mem k (f :: fs)) with (String.eqb k f || mem k fs).
  cbn [filter]. destruct (mem f acc) eqn:Ef; cbn [negb].
  - rewrite IH. destruct (String.eqb_spec k f) as [->|_]; [|reflexivity].
    rewrite Ef. cbn. rewrite andb_false_r. reflexivity.
  - change (mem k (f :: filter (fun f => negb (mem f acc)) fs))
      with (String.eqb k f || mem k (filter (fun f => negb (mem f acc)) fs)).
    rewrite IH. destruct (String.eqb_spec k f) as [->|_]; [|reflexivity].
    rewrite Ef. reflexivity.
Qed.

Lemma section_lookup_in (s : string) (fs : list string) (k : string) :
  section_lookup sectionMap s = Some fs -> mem k fs = true ->
  mem k all_section_fields = true.
Proof.
  intros Hs Hk. unfold all_section_fields. unfold mem in *.
  apply existsb_exists in Hk. destruct Hk as [x [Hx Hkx]].
  apply existsb_exists. exists x. split; [|exact Hkx].
  apply in_concat. exists fs. split; [|exact Hx].
  revert Hs. generalize sectionMap. intros m. induction m as [|[k' v] m IH]; cbn;
    [discriminate|].
  destruct (String.eqb k' s); [intros H; injection H as <-; left; reflexivity|].
  intros H. right. exact (IH H).
Qed.

Lemma foldM_add_section (secs : list string) (acc F : list string) :
  foldM add_section acc secs = Ok F ->
  forall k, mem k F = mem k acc || in_sections secs k.
Proof.
  revert acc. induction secs as [|s secs IH]; intros acc H k; cbn in H.
  - injection H as <-. cbn. rewrite orb_false_r. reflexivity.
  - unfold add_section in H at 1.
    destruct (section_lookup sectionMap s) as [fs|] eqn:Es.
    + cbn in H. rewrite (IH _ H k). unfold in_sections. cbn [existsb]. rewrite Es.
      fold (in_sections secs k).
      rewrite mem_app, mem_filter_notin.
      destruct (mem k acc), (mem k fs), (in_sections secs k); reflexivity.
    + destruct (mem s object_proto_names); cbn in H; [discriminate|].
      rewrite (IH _ H k). unfold in_sections. cbn [existsb]. rewrite Es. reflexivity.
Qed.

Lemma section_field_plain (k : string) :
  mem k all_section_fields = true ->
  is_index_key k = false /\ String.eqb k "__proto__" = false.
Proof.
  intros Hk. pose proof all_section_fields_plain as Hall.
  unfold mem in Hk. apply existsb_exists in Hk. destruct Hk as [x [Hx Hkx]].
  apply String.eqb_eq in Hkx. subst x.
  rewrite forallb_forall in Hall. specialize (Hall k Hx).
  apply andb_prop in Hall. destruct Hall as [H1 H2].
  apply negb_true_iff in H1, H2. auto.
Qed.

Lemma assoc_app_none (pre r : list (string * value)) (k : string) :
  assoc pre k = None -> assoc (pre ++ r) k = assoc r k.
Proof.
  induction pre as [|[k' v'] pre IH]; cbn; [reflexivity|].
  destruct (String.eqb k' k); [discriminate|exact IH].
Qed.

Lemma mem_keys_filter (P : string * value -> bool) (l : list (string * value)) (k : string) :
  mem k (map fst l) = false -> mem k (map fst (filter P l)) = false.
Proof.
  induction l as [|[k' v'] l IH]; cbn; [reflexivity|].
  unfold mem in *. cbn. intros H. apply orb_false_iff in H. destruct H as [H1 H2].
  destruct (P (k', v')); cbn; [rewrite H1|]; apply IH; exact H2.
Qed.

Lemma section_filter_fold (o : list (string * value)) (F : list string) :
  nodup_keys (map fst o) = true ->
  (forall k, mem k F = true -> mem k all_section_fields = true) ->
  forall pre suf, o = (pre ++ suf)%list ->
  foldM (fun filtered key =>
           if mem key F
           then x <- js_get (VObj o) key ;; Ok (obj_set filtered key x)
           else Ok filtered)
    (filter (fun kv => mem (fst kv) F) pre) (map fst suf)
  = Ok (filter (fun kv => mem (fst kv) F) o).
Proof.
  intros Hnd HF pre suf. revert pre. induction suf as [|[k v] suf IH]; intros pre Ho.
  - cbn. rewrite Ho, app_nil_r. reflexivity.
  - cbn [map foldM fst]. cbv beta.
    assert (Hpre : mem k (map fst pre) = false).
    { apply (mem_app_cons (map fst pre) k (map fst suf)).
      rewrite <- Hnd, Ho, map_app. reflexivity. }
    assert (Hsplit : o = ((pre ++ [(k, v)]) ++ suf)%list)
      by (rewrite Ho, <- app_assoc; reflexivity).
    destruct (mem k F) eqn:Ek.
    + destruct (section_field_plain k (HF k Ek)) as [Hidx Hproto].
      assert (Hget : js_get (VObj o) k = Ok v).
      { cbn. rewrite Ho, assoc_app_none by (apply assoc_none; exact Hpre).
        cbn. rewrite String.eqb_refl. reflexivity. }
      rewrite Hget. cbn [bind].
      assert (Hset : obj_set (filter (fun kv => mem (fst kv) F) pre) k v =
                     filter (fun kv => mem (fst kv) F) (pre ++ [(k, v)])).
      { unfold obj_set. rewrite Hproto. unfold obj_define.
        rewrite (assoc_none _ k (mem_keys_filter _ _ k Hpre)). rewrite Hidx.
        rewrite filter_app. cbn. rewrite Ek. reflexivity. }
      rewrite Hset. apply IH. exact Hsplit.
    + replace (filter (fun kv => mem (fst kv) F) pre)
        with (filter (fun kv => mem (fst kv) F) (pre ++ [(k, v)])).
      * apply IH. exact Hsplit.
      * rewrite filter_app. cbn. rewrite Ek, app_nil_r. reflexivity.
Qed.

(** X12: on an object with distinct keys, a successful
    [selectTickerDataSections] keeps, in their order and with their values,
    exactly the entries whose key belongs to a requested section; it
    returns the object unchanged when [all] is requested or when no entry
    is kept. *)
Theorem selectTickerDataSections_keeps_section_keys (o : list (string * value))
  (secs : list string) (r : value) :
  nodup_keys (map fst o) = true ->
  selectTickerDataSections (VObj o) (Some secs) = Ok r ->
  r = if mem "all" secs then VObj o
      else match filter (fun kv => in_sections secs (fst kv)) o with
           | [] => VObj o
           | kept => VObj kept
           end.
Proof.
  intros Hnd. unfold selectTickerDataSections. cbn [truthy negb orb].
  destruct (mem "all" secs); [intros H; injection H as <-; reflexivity|].
  destruct (foldM add_section [] secs) as [F| |] eqn:EF; cbn [bind]; try discriminate.
  pose proof (foldM_add_section secs [] F EF) as HF. cbn [mem existsb orb] in HF.
  assert (HFall : forall k, mem k F = true -> mem k all_section_fields = true).
  { intros k Hk. rewrite HF in Hk. cbn in Hk. unfold in_sections in Hk.
    apply existsb_exists in Hk. destruct Hk as [s [_ Hs]].
    destruct (section_lookup sectionMap s) as [fs|] eqn:Es; [|discriminate].
    exact (section_lookup_in s fs k Es Hs). }
  cbn [object_keys].
  pose proof (section_filter_fold o F Hnd HFall [] o eq_refl) as Hf.
  cbn [filter] in Hf. rewrite Hf. cbn [bind].
  replace (filter (fun kv => mem (fst kv) F) o)
    with (filter (fun kv => in_sections secs (fst kv)) o)
    by (apply filter_ext; intros [k v]; cbn; rewrite HF; reflexivity).
  intros H. injection H as <-.
  destruct (filter (fun kv => in_sections secs (fst kv)) o); reflexivity.
Qed.

(** ** What [selectFields] keeps *)

Lemma update_Forall (P : string * value -> Prop) (o : list (string * value))
  (k : string) (v : value) :
  Forall P o -> P (k, v) -> Forall P (update o k v).
Proof.
  intros Ho Hk. induction Ho as [|[k' v'] o Hkv Ho IH]; cbn; [constructor|].
  destruct (String.eqb_spec k' k) as [->|_]; constructor; auto.
Qed.

Lemma insert_index_Forall (P : string * value -> Prop) (o : list (string * value))
  (k : string) (v : value) :
  Forall P o -> P (k, v) -> Forall P (insert_index o k v).
Proof.
  intros Ho Hk. induction Ho as [|[k' v'] o Hkv Ho IH]; cbn; [constructor; auto|].
  destruct (_ && _); constructor; auto.
Qed.

Lemma obj_set_Forall (P : string * value -> Prop) (o : list (string * value))
  (k : string) (v : value) :
  Forall P o -> P (k, v) -> Forall P (obj_set o k v).
Proof.
  intros Ho Hk. unfold obj_set, obj_define.
  destruct (String.eqb k "__proto__"); [exact Ho|].
  destruct (assoc o k); [apply update_Forall; assumption|].
  destruct (is_index_key k); [apply insert_index_Forall; assumption|].
  apply Forall_app. split; [exact Ho|]. constructor; [exact Hk|constructor].
Qed.

Lemma selectFields_fold (fields : list string) (item : value) :
  forall fs acc sel b,
  (forall f, In f fs -> mem f fields = true) ->
  Forall (copied_from fields item) (fst acc) ->
  foldM (fun '(selected, hasAnyField) field =>
           if js_in field item
           then x <- js_get item field ;; Ok (obj_set selected field x, true)
           else Ok (selected, hasAnyField)) acc fs = Ok (sel, b) ->
  Forall (copied_from fields item) sel.
Proof.
  induction fs as [|f fs IH]; intros [selected h] sel b Hfs Hacc H; cbn in H.
  - injection H as <- _. exact Hacc.
  - destruct (js_in f item) eqn:Ein.
    + destruct (js_get item f) as [x| |] eqn:Eg; cbn in H; try discriminate.
      eapply IH; [intros g Hg; apply Hfs; right; exact Hg| |exact H].
      cbn. apply obj_set_Forall; [exact Hacc|].
      unfold copied_from. cbn. split; [apply Hfs; left; reflexivity|].
      split; assumption.
    + eapply IH; [intros g Hg; apply Hfs; right; exact Hg| |exact H]. exact Hacc.
Qed.

Lemma mem_In (k : string) (l : list string) : In k l -> mem k l = true.
Proof.
  intros H. unfold mem. apply existsb_exists. exists k. split; [exact H|].
  apply String.eqb_refl.
Qed.

(** X13: a successful [selectFields] maps each item either to itself or to
    an object whose every property is a requested field that the item has
    ([in]), holding the value read from the item. *)
Theorem selectFields_only_copies (data : list value) (fields : list string)
  (out : list value) :
  selectFields data fields = Ok out ->
  Forall2 (fun item res =>
             res = item \/
             exists sel, res = VObj sel /\ Forall (copied_from fields item) sel)
          data out.
Proof.
  unfold selectFields. destruct fields as [|f0 fs0] eqn:Ef.
  - intros H. injection H as <-. induction data; constructor; auto.
  - rewrite <- Ef. intros H. revert out H.
    induction data as [|item data IH]; intros out H; cbn in H.
    + injection H as <-. constructor.
    + destruct (negb (is_object item)).
      * cbn in H. destruct (mapM _ data) as [r| |] eqn:Er; cbn in H; try discriminate.
        injection H as <-. constructor; [left; reflexivity|]. apply IH. reflexivity.
      * destruct (foldM _ ([], false) fields) as [[sel b]| |] eqn:Efold;
          cbn in H; try discriminate.
        destruct (mapM _ data) as [r| |] eqn:Er; cbn in H; try discriminate.
        injection H as <-. constructor; [|apply IH; reflexivity].
        destruct b; [right|left; reflexivity].
        exists sel. split; [reflexivity|].
        eapply (selectFields_fold fields item fields ([], false) sel true);
          [intros g Hg; apply mem_In; exact Hg|constructor|exact Efold].
Qed.

(** ** Reading a markdown table back *)

Lemma has_char_app (c : ascii) (a b : string) :
  has_char c (a ++ b) = has_char c a || has_char c b.
Proof.
  induction a as [|d a IH]; [reflexivity|].
  cbn [String.append]. rewrite !has_char_cons, IH. apply orb_assoc.
Qed.

Lemma split_on_nonempty (c : ascii) (s : string) : split_on c s <> [].
Proof.
  destruct s as [|d r]; cbn; [discriminate|].
  destruct (Ascii.eqb d c); [discriminate|]. destruct (split_on c r); discriminate.
Qed.

Lemma split_on_app (c : ascii) (a b : string) :
  has_char c a = false ->
  split_on c (a ++ b) =
  (a ++ hd EmptyString (split_on c b)) :: tl (split_on c b).
Proof.
  induction a as [|d a IH]; intros Ha.
  - cbn. destruct (split_on c b) eqn:E; [exfalso; exact (split_on_nonempty c b E)|].
    reflexivity.
  - rewrite has_char_cons in Ha. apply orb_false_iff in Ha. destruct Ha as [Hd Ha].
    cbn [String.append split_on]. rewrite Ascii.eqb_sym, Hd, IH by exact Ha.
    reflexivity.
Qed.

Lemma split_on_join (c : ascii) (ls : list string) :
  ls <> [] -> Forall (fun x => has_char c x = false) ls ->
  split_on c (join (str1 c) ls) = ls.
Proof.
  intros Hne Hall. induction Hall as [|x r Hx Hr IH]; [contradiction|].
  destruct r as [|y r].
  - cbn [join]. rewrite <- (str_app_nil x) at 1. rewrite split_on_app by exact Hx.
    cbn. rewrite str_app_nil. reflexivity.
  - change (join (str1 c) (x :: y :: r)) with (x ++ str1 c ++ join (str1 c) (y :: r)).
    rewrite split_on_app by exact Hx. cbn [str1 String.append split_on].
    rewrite Ascii.eqb_refl. cbn [hd tl]. rewrite str_app_nil, IH by discriminate.
    reflexivity.
Qed.

Lemma join_bars (cells : list string) :
  cells <> [] ->
  "| " ++ join " | " cells ++ " |" =
  join "|" (EmptyString :: map pad_cell cells ++ [EmptyString]).
Proof.
  intros Hne.
  assert (H : join "|" (map pad_cell cells ++ [EmptyString]) =
              " " ++ join " | " cells ++ " |").
  { induction cells as [|t r IH]; [contradiction|].
    destruct r as [|t2 r].
    - cbn [map List.app join]. unfold pad_cell. rewrite !str_app_assoc. reflexivity.
    - change (join "|" (map pad_cell (t :: t2 :: r) ++ [EmptyString]))
        with (pad_cell t ++ "|" ++ join "|" (map pad_cell (t2 :: r) ++ [EmptyString])).
      rewrite IH by discriminate.
      change (join " | " (t :: t2 :: r)) with (t ++ " | " ++ join " | " (t2 :: r)).
      unfold pad_cell. rewrite !str_app_assoc. reflexivity. }
  destruct cells as [|t r]; [contradiction|].
  change (join "|" (EmptyString :: map pad_cell (t :: r) ++ [EmptyString]))
    with (EmptyString ++ "|" ++ join "|" (map pad_cell (t :: r) ++ [EmptyString])).
  rewrite H. reflexivity.
Qed.

Lemma drop_trailing_space_app (t : string) :
  drop_trailing_space (t ++ " ") = Some t.
Proof.
  induction t as [|c t IH]; [reflexivity|].
  cbn [String.append drop_trailing_space]. rewrite IH.
  destruct t; reflexivity.
Qed.

Lemma md_row_cells (cells : list string) :
  cells <> [] -> Forall (fun c => has_char "|" c = false) cells ->
  md_row ("| " ++ join " | " cells ++ " |") = Some cells.
Proof.
  intros Hne Hall. unfold md_row. rewrite join_bars by exact Hne.
  rewrite split_on_join.
  - assert (Hi : inner_pieces (map pad_cell cells ++ [EmptyString]) =
                 Some (map pad_cell cells)).
    { clear. induction cells as [|t r IH]; [reflexivity|].
      cbn [map List.app]. cbn [inner_pieces].
      destruct (map pad_cell r ++ [EmptyString])%list eqn:E;
        [destruct r; discriminate|]. rewrite IH. reflexivity. }
    rewrite Hi. clear - Hall. induction Hall as [|t r Ht Hr IH]; [reflexivity|].
    cbn [map mapO]. rewrite IH. unfold pad_cell. cbn [String.append strip_cell].
    rewrite drop_trailing_space_app. reflexivity.
  - discriminate.
  - constructor; [reflexivity|]. apply Forall_app. split; [|repeat constructor].
    apply Forall_map. eapply Forall_impl; [|exact Hall]. intros t Ht.
    unfold pad_cell. rewrite !has_char_app, Ht. reflexivity.
Qed.

Lemma has_char_join (c : ascii) (sep : string) (l : list string) :
  has_char c sep = false -> Forall (fun x => has_char c x = false) l ->
  has_char c (join sep l) = false.
Proof.
  intros Hs Hl. induction Hl as [|x r Hx Hr IH]; [reflexivity|].
  destruct r as [|y r]; [exact Hx|].
  change (join sep (x :: y :: r)) with (x ++ sep ++ join sep (y :: r)).
  rewrite !has_char_app, Hx, Hs, IH. reflexivity.
Qed.

Lemma formatAsTable_objects (first : value) (rest : list value) :
  is_object first = true ->
  formatAsTable (VArr (first :: rest)) =
  rmap (fun rows => lines (md_line (object_keys first)
                           :: md_line (map (fun _ => "---") (object_keys first))
                           :: map md_line rows))
    (mapM (fun item => cell_texts item (object_keys first)) (first :: rest)).
Proof.
  intros Hobj. unfold formatAsTable. rewrite Hobj. cbn [negb].
  set (H := object_keys first).
  rewrite (mapM_ext _ (fun item => y <- cell_texts item H ;; Ok (md_line y)))
    by reflexivity.
  rewrite mapM_bind_ok.
  destruct (mapM (fun item => cell_texts item H) (first :: rest)); reflexivity.
Qed.

Lemma md_line_plain (c : ascii) (cells : list string) :
  has_char c " | " = false -> has_char c "| " = false -> has_char c " |" = false ->
  Forall (fun x => has_char c x = false) cells -> has_char c (md_line cells) = false.
Proof.
  intros H1 H2 H3 Hc. unfold md_line. rewrite !has_char_app, H2, H3.
  rewrite has_char_join by assumption. reflexivity.
Qed.

(** X11: for an array whose first item is an object with at least one key,
    when no header or cell text contains a bar or a line feed, splitting the
    output of [formatAsTable] into lines and cells gives back the headers,
    a row of [---] and the cell texts of every item. *)
Theorem formatAsTable_reads_back (first : value) (rest : list value)
  (rows : list (list string)) :
  is_object first = true ->
  object_keys first <> [] ->
  Forall (fun h => has_char "|" h = false /\ has_char nl h = false) (object_keys first) ->
  mapM (fun item => cell_texts item (object_keys first)) (first :: rest) = Ok rows ->
  Forall (Forall (fun c => has_char "|" c = false /\ has_char nl c = false)) rows ->
  exists txt, formatAsTable (VArr (first :: rest)) = Ok txt /\
    md_parse txt = Some (object_keys first
                         :: map (fun _ => "---") (object_keys first) :: rows).
Proof.
  intros Hobj Hne Hh Hrows Hc.
  rewrite formatAsTable_objects by exact Hobj. rewrite Hrows.
  eexists. split; [reflexivity|].
  set (H := object_keys first) in *.
  assert (Hlen : Forall (fun cs => length cs = length H) rows).
  { eapply mapM_Forall; [exact Hrows|]. intros x y Hy. unfold cell_texts in Hy.
    exact (mapM_length _ _ _ Hy). }
  set (all := H :: map (fun _ => "---") H :: rows).
  assert (Hall : Forall (fun cs => cs <> [] /\
                         Forall (fun c => has_char "|" c = false /\
                                          has_char nl c = false) cs) all).
  { constructor; [split; assumption|]. constructor.
    - split; [destruct H; [contradiction|discriminate]|].
      apply Forall_map. clear. induction H as [|h hs IHh]; constructor; [split; reflexivity|exact IHh].
    - clear Hrows. induction rows as [|cs rs IH]; [constructor|].
      inversion Hc; inversion Hlen; subst. constructor; [|auto].
      split; [|assumption]. intros ->. apply Hne. destruct H; [reflexivity|discriminate]. }
  change (lines (md_line H :: md_line (map (fun _ => "---") H) :: map md_line rows))
    with (join (str1 nl) (map md_line all)).
  unfold md_parse. rewrite split_on_join.
  - clearbody all. induction Hall as [|cs r [Hne' Hcs] Hr IH]; [reflexivity|].
    cbn [map mapO]. rewrite IH. unfold md_line. rewrite md_row_cells.
    + reflexivity.
    + exact Hne'.
    + eapply Forall_impl; [|exact Hcs]. cbn. tauto.
  - unfold all. cbn [map]. discriminate.
  - apply Forall_map. eapply Forall_impl; [|exact Hall]. intros cs [_ Hcs].
    apply md_line_plain; try reflexivity. eapply Forall_impl; [|exact Hcs]. cbn. tauto.
Qed.

(** ** Witnesses *)

Lemma applyPagination_pages_partition_witness :
  ResponseOptions.page_size pages_of_three = Some 3%Z /\ (0 < 3)%Z /\
  concat (map (fun p => page_items seven_items (with_page pages_of_three p))
    (page_numbers (PaginationInfo.total_pages
                     (snd (applyPagination (VArr seven_items) pages_of_three)))))
  = limit_stage seven_items (ResponseOptions.limit pages_of_three).
Proof.
  split; [reflexivity|]. split; [lia|].
  apply (applyPagination_pages_partition seven_items pages_of_three 3); [reflexivity|lia].
Defined.

Lemma applyPagination_page_nonempty_iff_witness :
  ResponseOptions.page_size pages_of_three = Some 3%Z /\ (0 < 3)%Z /\ (1 <= 3)%Z /\
  (page_items seven_items (with_page pages_of_three 3) <> [] <->
   (3 <= PaginationInfo.total_pages
           (snd (applyPagination (VArr seven_items) (with_page pages_of_three 3))))%Z).
Proof.
  split; [reflexivity|]. split; [lia|]. split; [lia|].
  apply (applyPagination_page_nonempty_iff seven_items pages_of_three 3 3);
    [reflexivity|lia|lia].
Defined.

Lemma applyPagination_has_next_iff_witness :
  ResponseOptions.page_size pages_of_three = Some 3%Z /\ (0 < 3)%Z /\ (1 <= 2)%Z /\
  (PaginationInfo.has_next
     (snd (applyPagination (VArr seven_items) (with_page pages_of_three 2))) = true <->
   page_items seven_items (with_page pages_of_three (2 + 1)) <> []).
Proof.
  split; [reflexivity|]. split; [lia|]. split; [lia|].
  apply (applyPagination_has_next_iff seven_items pages_of_three 3 2);
    [reflexivity|lia|lia].
Defined.

Lemma standard_tool_default_window_witness :
  str_truthy None = false /\ (0 < DEFAULT_LIMITS.companies)%Z /\
  rmap OptimizedResponse.data
    (formatResponse (QuiverAPIResponse.mk (VArr seven_items) None 200)
       (standard_options no_tool_args DEFAULT_LIMITS.companies))
  = Ok (VArr (firstn (Nat.min 50 (Z.to_nat DEFAULT_LIMITS.companies)) seven_items)).
Proof.
  split; [reflexivity|]. split; [unfold DEFAULT_LIMITS.companies; lia|].
  apply standard_tool_default_window; [reflexivity|unfold DEFAULT_LIMITS.companies; lia].
Defined.

Lemma standard_tool_limit_cap_witness :
  exists out,
    formatResponse (QuiverAPIResponse.mk (VArr seven_items) None 200)
      (standard_options (ToolArgs.mk None None None (Some 2%Z) (Some 4%Z) None) 5)
    = Ok out /\
    exists d, OptimizedResponse.data out = VArr d /\
              length d <= Z.to_nat (num_or None 5).
Proof.
  eexists. split; [reflexivity|].
  apply (standard_tool_limit_cap (ToolArgs.mk None None None (Some 2%Z) (Some 4%Z) None)
           5 (QuiverAPIResponse.mk (VArr seven_items) None 200) seven_items);
    [reflexivity|reflexivity|reflexivity|reflexivity|cbn; lia|reflexivity].
Defined.

Lemma lobbying_and_bulk_report_first_page_witness :
  str_truthy None = false /\
  (forall out, formatResponse (QuiverAPIResponse.mk (VArr seven_items) None 200)
                 (lobbying_options (ToolArgs.mk None None None (Some 3%Z) (Some 10%Z) None))
               = Ok out ->
   exists p, OptimizedResponse.pagination out = Some p /\
     PaginationInfo.current_page p = 1%Z /\ PaginationInfo.page_size p = 50%Z /\
     PaginationInfo.has_previous p = false) /\
  (forall out, formatResponse (QuiverAPIResponse.mk (VArr seven_items) None 200)
                 (bulk_congress_trading_options
                    (ToolArgs.mk None None None (Some 3%Z) (Some 10%Z) None))
               = Ok out ->
   exists p, OptimizedResponse.pagination out = Some p /\
     PaginationInfo.current_page p = 1%Z /\ PaginationInfo.page_size p = 50%Z /\
     PaginationInfo.has_previous p = false).
Proof.
  split; [reflexivity|].
  apply (lobbying_and_bulk_report_first_page
           (ToolArgs.mk None None None (Some 3%Z) (Some 10%Z) None)
           (QuiverAPIResponse.mk (VArr seven_items) None 200) seven_items);
    reflexivity.
Defined.

Lemma error_envelope_reply_not_flagged_witness :
  exists out,
    str_truthy (Some "timeout") = true /\
    formatResponse (QuiverAPIResponse.mk (VArr []) (Some "timeout") 500) no_options
    = Ok out /\
    exists s,
      call_tool_reply (optimized_value out) = Ok (CallToolReply.mk (VStr s) false) /\
      JSON_parse s = Some (VObj [("error", VStr "timeout"); ("status", VNum 500)]).
Proof.
  eexists. split; [reflexivity|]. split; [reflexivity|].
  apply (error_envelope_reply_not_flagged
           (QuiverAPIResponse.mk (VArr []) (Some "timeout") 500) no_options);
    reflexivity.
Defined.

Lemma compact_and_detailed_same_reply_witness :
  exists out,
    formatResponse (QuiverAPIResponse.mk (VArr seven_items) None 200)
      (with_mode_format pages_of_three detailed json) = Ok out /\
    (forall s, OptimizedResponse.data out <> VStr s) /\
    bind (formatResponse (QuiverAPIResponse.mk (VArr seven_items) None 200)
            (with_mode_format pages_of_three compact json))
      (fun out' => call_tool_reply (optimized_value out'))
    = call_tool_reply (optimized_value out).
Proof.
  eexists. split; [reflexivity|]. split; [intros s; discriminate|].
  apply (compact_and_detailed_same_reply
           (QuiverAPIResponse.mk (VArr seven_items) None 200) pages_of_three);
    [reflexivity|reflexivity|intros s; discriminate].
Defined.

Lemma formatAsCSV_reads_back_witness :
  exists txt, formatAsCSV (VArr [smith_row; lee_row]) = Ok txt /\
    csv_parse txt = Some [["name"; "qty"]; ["Smith, J"; "3"]; ["Lee"; EmptyString]].
Proof.
  apply (formatAsCSV_reads_back smith_row [lee_row]
           [["Smith, J"; "3"]; ["Lee"; EmptyString]]);
    [reflexivity|discriminate|repeat constructor|reflexivity|repeat constructor].
Defined.

Lemma formatAsTable_reads_back_witness :
  exists txt, formatAsTable (VArr [smith_row; lee_row]) = Ok txt /\
    md_parse txt = Some [["name"; "qty"]; ["---"; "---"];
                         ["Smith, J"; "3"]; ["Lee"; EmptyString]].
Proof.
  apply (formatAsTable_reads_back smith_row [lee_row]
           [["Smith, J"; "3"]; ["Lee"; EmptyString]]);
    [reflexivity|discriminate|repeat constructor|reflexivity|repeat constructor].
Defined.

Lemma selectTickerDataSections_keeps_section_keys_witness :
  nodup_keys (map fst ticker_object) = true /\
  selectTickerDataSections (VObj ticker_object) (Some ["basic"]) =
    Ok (VObj [("ticker", VStr "AAPL"); ("price", VNum 190)]) /\
  VObj [("ticker", VStr "AAPL"); ("price", VNum 190)] =
    (if mem "all" ["basic"] then VObj ticker_object
     else match filter (fun kv => in_sections ["basic"] (fst kv)) ticker_object with
          | [] => VObj ticker_object
          | kept => VObj kept
          end).
Proof.
  split; [reflexivity|]. split; [reflexivity|].
  apply selectTickerDataSections_keeps_section_keys; reflexivity.
Defined.

Lemma selectFields_only_copies_witness :
  selectFields [VObj [("a", VNum 1); ("b", VNum 2)]; VNum 5] ["a"] =
    Ok [VObj [("a", VNum 1)]; VNum 5] /\
  Forall2 (fun item res =>
             res = item \/
             exists sel, res = VObj sel /\ Forall (copied_from ["a"] item) sel)
    [VObj [("a", VNum 1); ("b", VNum 2)]; VNum 5] [VObj [("a", VNum 1)]; VNum 5].
Proof.
  split; [reflexivity|]. apply selectFields_only_copies. reflexivity.
Defined.
